(** * A shallow embedding of [ai_agent.py]: the Minesweeper knowledge engine

    The Python module has two classes.  [Sentence] is a set of board cells
    with the number of mines among them; [MinesweeperAI] owns the sets
    [moves_made], [mines], [safes] and the list [knowledge] of sentences.

    Python sets of cells are modelled as [gset (Z * Z)], Python integers as
    [Z].  Mutation is explicit state passing: a method that mutates [self]
    becomes a function returning the new object.  The sentences held by
    [knowledge] are never aliased with one another (each is the result of a
    fresh [Sentence(...)] call), so a list of values models the list of
    objects.

    Three things the source leaves to the Python runtime are parameters of
    the model, constrained only by what the runtime guarantees:
    - [iter]: the order in which a [for] loop visits a set of cells;
    - [dedup]: the order and choice made by [list(set(knowledge))];
    - [randbelow]: the draw behind [random.choice]. *)

From stdpp Require Import base decidable option list sets gmap.
From Stdlib Require Import ZArith Lia.

Set Warnings "-clear-no-such-hyp".

Open Scope Z_scope.

(** A board cell [(row, col)]. *)
Abbreviation cell := (Z * Z)%type.

(** ** class Sentence *)
Module Sentence.

Record t : Type := Sentence { cells : gset cell; count : Z }.

(** [__eq__]: same cells and same count. *)
#[global] Instance eq_dec : EqDecision t.
Proof. solve_decision. Defined.

(** The two query methods return either [self.cells] or [False]. *)
Definition known_mines (s : t) : option (gset cell) :=
  if bool_decide (Z.of_nat (size (cells s)) = count s)
     && negb (bool_decide (count s = 0))
  then Some (cells s) else None.

Definition known_safes (s : t) : option (gset cell) :=
  if bool_decide (count s = 0) then Some (cells s) else None.

Definition mark_mine (c : cell) (s : t) : t :=
  if bool_decide (c ∈ cells s)
  then Sentence (cells s ∖ {[c]}) (count s - 1)
  else s.

Definition mark_safe (c : cell) (s : t) : t :=
  if bool_decide (c ∈ cells s)
  then Sentence (cells s ∖ {[c]}) (count s)
  else s.

End Sentence.

(** Python truth value of what [known_mines] / [known_safes] return:
    [False] and the empty set are falsy. *)
Definition truthy (r : option (gset cell)) : bool :=
  match r with
  | Some X => negb (bool_decide (X = ∅))
  | None => false
  end.

(** [range(a, b)] *)
Definition range (a b : Z) : list Z :=
  (λ k : nat, a + Z.of_nat k) <$> seq 0 (Z.to_nat (b - a)).

(** ** class MinesweeperAI *)
Module MinesweeperAI.

Record t : Type := MinesweeperAI {
  height : Z;
  width : Z;
  moves_made : gset cell;
  mines : gset cell;
  safes : gset cell;
  knowledge : list Sentence.t
}.

(** [__init__] *)
Definition init (h w : Z) : t := MinesweeperAI h w ∅ ∅ ∅ [].

Definition set_knowledge (k : list Sentence.t) (ai : t) : t :=
  MinesweeperAI (height ai) (width ai) (moves_made ai) (mines ai) (safes ai) k.

Definition mark_mine (c : cell) (ai : t) : t :=
  MinesweeperAI (height ai) (width ai) (moves_made ai)
    ({[c]} ∪ mines ai) (safes ai)
    (Sentence.mark_mine c <$> knowledge ai).

Definition mark_safe (c : cell) (ai : t) : t :=
  MinesweeperAI (height ai) (width ai) (moves_made ai)
    (mines ai) ({[c]} ∪ safes ai)
    (Sentence.mark_safe c <$> knowledge ai).

(** The test [0 <= i < self.height and 0 <= j < self.width]. *)
Definition in_board (ai : t) (p : cell) : bool :=
  (0 <=? p.1) && (p.1 <? height ai) && (0 <=? p.2) && (p.2 <? width ai).

(** Body of the double loop of [neighbors], on the pair
    [(neighboring_cells, count)]. *)
Definition neighbors_step (ai : t) (c : cell)
    (acc : gset cell * Z) (p : cell) : gset cell * Z :=
  if bool_decide (p = c) then acc
  else if in_board ai p then
    if bool_decide (p ∈ mines ai) then (acc.1, acc.2 - 1)
    else if negb (bool_decide (p ∈ safes ai))
            || negb (bool_decide (p ∈ moves_made ai))
         then ({[p]} ∪ acc.1, acc.2)
         else acc
  else acc.

Definition neighbors (ai : t) (c : cell) (n : Z) : Sentence.t :=
  let acc :=
    foldl (λ acc i,
             foldl (λ acc j, neighbors_step ai c acc (i, j))
                   acc (range (c.2 - 1) (c.2 + 2)))
          (∅, n) (range (c.1 - 1) (c.1 + 2)) in
  Sentence.Sentence acc.1 acc.2.

(** Inner loop of the derivation pass: [j] runs over a copy of the
    list taken when the inner loop starts, new sentences are appended to
    the live list [k]. *)
Definition derive_inner (i : Sentence.t) (snapshot k : list Sentence.t)
    : list Sentence.t :=
  foldl (λ k j,
           if bool_decide (Sentence.cells j = Sentence.cells i) then k
           else if bool_decide (Sentence.cells j ⊆ Sentence.cells i)
           then k ++ [Sentence.Sentence
                        (Sentence.cells i ∖ Sentence.cells j)
                        (Sentence.count i - Sentence.count j)]
           else k)
        k snapshot.

(** Outer loop: [i] runs over a copy taken once, before the pass. *)
Definition derive_pass (k0 : list Sentence.t) : list Sentence.t :=
  foldl (λ k i, derive_inner i k k) k0 k0.

Section Runtime.
(** Iteration order of a Python set of cells. *)
Variable iter : gset cell → list cell.
(** [list(set(...))] on a list of sentences. *)
Variable dedup : list Sentence.t → list Sentence.t.
(** [random._randbelow]. *)
Variable randbelow : nat → nat.

(** [for additional_cell in <set>.copy(): self.mark_...(additional_cell)] *)
Definition mark_each (mark : cell → t → t)
    (r : option (gset cell)) (ai : t) : t :=
  match r with
  | Some X => foldl (λ a c, mark c a) ai (iter X)
  | None => ai
  end.

(** One iteration of the extraction loop, for the sentence at
    position [i] of the live list. *)
Definition extract_at (ai : t) (i : nat) : t :=
  match knowledge ai !! i with
  | None => ai
  | Some s =>
      let ai1 :=
        if truthy (Sentence.known_mines s)
        then mark_each mark_mine (Sentence.known_mines s) ai
        else ai in
      match knowledge ai1 !! i with
      | None => ai1
      | Some s' =>
          if truthy (Sentence.known_safes s')
          then mark_each mark_safe (Sentence.known_safes s') ai1
          else ai1
      end
  end.

Definition extract_pass (ai : t) : t :=
  foldl extract_at ai (seq 0 (length (knowledge ai))).

(** [add_knowledge] up to, and without, its last statement. *)
Definition infer (c : cell) (n : Z) (ai : t) : t :=
  let ai1 :=
    MinesweeperAI (height ai) (width ai) ({[c]} ∪ moves_made ai)
      (mines ai) (safes ai) (knowledge ai) in
  let ai2 := if bool_decide (c ∈ safes ai1) then ai1 else mark_safe c ai1 in
  let new_sentence := neighbors ai2 c n in
  let ai3 := set_knowledge (knowledge ai2 ++ [new_sentence]) ai2 in
  let ai4 := extract_pass ai3 in
  set_knowledge (derive_pass (knowledge ai4)) ai4.

Definition add_knowledge (c : cell) (n : Z) (ai : t) : t :=
  let ai5 := infer c n ai in
  set_knowledge (dedup (knowledge ai5)) ai5.

(** Returns the chosen cell (or [None]) together with the engine. *)
Definition make_safe_move (ai : t) : option cell * t :=
  (List.find (λ c, negb (bool_decide (c ∈ moves_made ai))) (iter (safes ai)),
   ai).

(** The list [moves] built by the double loop of [make_random_move]. *)
Definition candidate_moves (ai : t) : list cell :=
  i ← range 0 (height ai);
  j ← range 0 (width ai);
  if negb (bool_decide ((i, j) ∈ moves_made ai))
     && negb (bool_decide ((i, j) ∈ mines ai))
  then [(i, j)] else [].

Definition make_random_move (ai : t) : option cell * t :=
  let moves := candidate_moves ai in
  (if negb (length moves =? 0)%nat
   then moves !! randbelow (length moves)
   else None,
   ai).

End Runtime.

End MinesweeperAI.

(** Concrete runtime choices, used to run the model on examples. *)
Definition iter_elements (X : gset cell) : list cell := elements X.
Definition dedup_first (l : list Sentence.t) : list Sentence.t := remove_dups l.
Definition randbelow_zero (_ : nat) : nat := 0%nat.


(** ** What the Python runtime guarantees about the three parameters *)

(** A [for] loop over a set visits every element exactly once. *)
Record iter_ok (iter : gset cell → list cell) : Prop := {
  iter_elem : ∀ X c, c ∈ iter X ↔ c ∈ X;
  iter_nodup : ∀ X, NoDup (iter X)
}.

(** [list(set(l))] has the elements of [l], each once (up to [__eq__]). *)
Record dedup_ok (dedup : list Sentence.t → list Sentence.t) : Prop := {
  dedup_elem : ∀ l s, s ∈ dedup l ↔ s ∈ l;
  dedup_nodup : ∀ l, NoDup (dedup l)
}.

(** [_randbelow(n)] is below [n]. *)
Definition randbelow_ok (randbelow : nat → nat) : Prop :=
  ∀ n, (0 < n)%nat → (randbelow n < n)%nat.

(** ** Sequences of calls *)

(** A sequence of [add_knowledge] calls, oldest first. *)
Definition observe_all (iter : gset cell → list cell)
    (dedup : list Sentence.t → list Sentence.t)
    (obs : list (cell * Z)) (ai : MinesweeperAI.t) : MinesweeperAI.t :=
  foldl (λ a o, MinesweeperAI.add_knowledge iter dedup o.1 o.2 a) ai obs.

(** The public operations of the engine. *)
Inductive op : Type :=
  | MarkMine (c : cell)
  | MarkSafe (c : cell)
  | AddKnowledge (c : cell) (n : Z)
  | MakeSafeMove
  | MakeRandomMove.

Section Run.
Variable iter : gset cell → list cell.
Variable dedup : list Sentence.t → list Sentence.t.
Variable randbelow : nat → nat.

Definition run_op (ai : MinesweeperAI.t) (o : op) : MinesweeperAI.t :=
  match o with
  | MarkMine c => MinesweeperAI.mark_mine c ai
  | MarkSafe c => MinesweeperAI.mark_safe c ai
  | AddKnowledge c n => MinesweeperAI.add_knowledge iter dedup c n ai
  | MakeSafeMove => (MinesweeperAI.make_safe_move iter ai).2
  | MakeRandomMove => (MinesweeperAI.make_random_move randbelow ai).2
  end.

Definition run (ops : list op) (ai : MinesweeperAI.t) : MinesweeperAI.t :=
  foldl run_op ai ops.
End Run.

(** ** The board behind the oracle *)

(** Cells of the [h] x [w] board. *)
Definition on_board (h w : Z) (p : cell) : Prop :=
  0 <= p.1 < h ∧ 0 <= p.2 < w.

(** [p] is one of the (up to) eight cells around [c]. *)
Definition around (c p : cell) : Prop :=
  p ≠ c ∧ c.1 - 1 <= p.1 <= c.1 + 1 ∧ c.2 - 1 <= p.2 <= c.2 + 1.

#[global] Instance on_board_dec h w p : Decision (on_board h w p).
Proof. unfold on_board. apply _. Defined.

#[global] Instance around_dec c p : Decision (around c p).
Proof. unfold around. apply _. Defined.

(** The in-bounds neighbours of [c], as the spec enumerates them. *)
Definition adjacent (h w : Z) (c : cell) : gset cell :=
  filter (on_board h w)
    (list_to_set
       [(c.1 - 1, c.2 - 1); (c.1 - 1, c.2); (c.1 - 1, c.2 + 1);
        (c.1, c.2 - 1); (c.1, c.2 + 1);
        (c.1 + 1, c.2 - 1); (c.1 + 1, c.2); (c.1 + 1, c.2 + 1)]).

(** The constraint of section 4.3 of the spec, in the spec's words: known
    mines among the neighbours are left out and counted off, the other
    neighbours are kept unless both safe and already played. *)
Definition neighbors_spec (ai : MinesweeperAI.t) (c : cell) (n : Z)
    : Sentence.t :=
  let adj := adjacent (MinesweeperAI.height ai) (MinesweeperAI.width ai) c in
  Sentence.Sentence
    (filter (λ p, ¬ (p ∈ MinesweeperAI.safes ai
                     ∧ p ∈ MinesweeperAI.moves_made ai))
            (adj ∖ MinesweeperAI.mines ai))
    (n - Z.of_nat (size (adj ∩ MinesweeperAI.mines ai))).

(** Number of mines of [board] among the cells [X]. *)
Definition mines_in (board : cell → bool) (X : gset cell) : Z :=
  Z.of_nat (size (filter (λ p, board p = true) X)).

(** A sentence is true of a board. *)
Definition holds (board : cell → bool) (s : Sentence.t) : Prop :=
  Sentence.count s = mines_in board (Sentence.cells s).

(** What the oracle reports for [c]. *)
Definition oracle_count (board : cell → bool) (h w : Z) (c : cell) : Z :=
  mines_in board (adjacent h w c).

(** Everything the engine believes is true of the board. *)
Record sound (board : cell → bool) (ai : MinesweeperAI.t) : Prop := {
  sound_mines : ∀ p, p ∈ MinesweeperAI.mines ai → board p = true;
  sound_safes : ∀ p, p ∈ MinesweeperAI.safes ai → board p = false;
  sound_knowledge : Forall (holds board) (MinesweeperAI.knowledge ai)
}.

(** An observation the oracle of section 6 can make on an [h] x [w]
    board: the cell is no mine and the count is the true one. *)
Definition oracle_obs (board : cell → bool) (h w : Z) (o : cell * Z) : Prop :=
  board o.1 = false ∧ o.2 = oracle_count board h w o.1.

(** An operation that agrees with the board. *)
Definition op_agrees (board : cell → bool) (h w : Z) (o : op) : Prop :=
  match o with
  | MarkMine c => board c = true
  | MarkSafe c => board c = false
  | AddKnowledge c n => oracle_obs board h w (c, n)
  | MakeSafeMove | MakeRandomMove => True
  end.

(** ** Marking a whole set of cells

    What the loops [for c in X.copy(): self.mark_mine(c)] and
    [for c in X.copy(): self.mark_safe(c)] amount to, in one step. *)
Definition mark_mines (X : gset cell) (ai : MinesweeperAI.t)
    : MinesweeperAI.t :=
  MinesweeperAI.MinesweeperAI
    (MinesweeperAI.height ai) (MinesweeperAI.width ai)
    (MinesweeperAI.moves_made ai)
    (X ∪ MinesweeperAI.mines ai) (MinesweeperAI.safes ai)
    ((λ s, Sentence.Sentence
             (Sentence.cells s ∖ X)
             (Sentence.count s - Z.of_nat (size (Sentence.cells s ∩ X))))
       <$> MinesweeperAI.knowledge ai).

Definition mark_safes (X : gset cell) (ai : MinesweeperAI.t)
    : MinesweeperAI.t :=
  MinesweeperAI.MinesweeperAI
    (MinesweeperAI.height ai) (MinesweeperAI.width ai)
    (MinesweeperAI.moves_made ai)
    (MinesweeperAI.mines ai) (X ∪ MinesweeperAI.safes ai)
    ((λ s, Sentence.Sentence (Sentence.cells s ∖ X) (Sentence.count s))
       <$> MinesweeperAI.knowledge ai).

(** ** Growth of the engine's knowledge

    [b] has the board and the played cells of [a], and at least its known
    mines and safe cells. *)
Definition grows (a b : MinesweeperAI.t) : Prop :=
  MinesweeperAI.height b = MinesweeperAI.height a
  ∧ MinesweeperAI.width b = MinesweeperAI.width a
  ∧ MinesweeperAI.moves_made b = MinesweeperAI.moves_made a
  ∧ MinesweeperAI.mines a ⊆ MinesweeperAI.mines b
  ∧ MinesweeperAI.safes a ⊆ MinesweeperAI.safes b.

(** ** Example boards

    A row of four cells with one mine at its right end, and two rows of
    three cells with mines in the two lower corners; with each, a sequence
    of observations the oracle makes on it. *)
Definition board_row (p : cell) : bool := bool_decide (p = (0, 3)).

Definition obs_row : list (cell * Z) := [((0, 0), 0); ((0, 2), 1)].

Definition board_corners (p : cell) : bool :=
  bool_decide (p = (1, 0)) || bool_decide (p = (1, 2)).

Definition obs_corners : list (cell * Z) :=
  [((0, 0), 1); ((0, 2), 1); ((0, 1), 2)].

Definition ops_corners : list op :=
  [AddKnowledge (0, 0) 1; MarkMine (1, 2); MakeSafeMove;
   AddKnowledge (0, 2) 1; MarkSafe (1, 1); MakeRandomMove].

(** An engine on the corners board that holds two true sentences, both
    trivial: one without a mine, one with nothing but mines. *)
Definition ai_trivial : MinesweeperAI.t :=
  MinesweeperAI.MinesweeperAI 2 3 ∅ ∅ ∅
    [Sentence.Sentence {[(1, 1)]} 0; Sentence.Sentence {[(1, 0); (1, 2)]} 2].

(** Another iteration order: the one of [iter_elements], backwards. *)
Definition iter_reversed (X : gset cell) : list cell := reverse (elements X).

(** * Properties *)

(** ** Sentence *)

(** C6: [known_mines] returns the cell-set exactly when the count equals
    the number of cells and is not zero; in every other case it returns
    the no-fact value. *)
Theorem known_mines_iff (s : Sentence.t) :
  (Sentence.known_mines s = Some (Sentence.cells s)
   ↔ Z.of_nat (size (Sentence.cells s)) = Sentence.count s
     ∧ Sentence.count s ≠ 0)
  ∧ (Sentence.known_mines s = None
     ↔ ¬ (Z.of_nat (size (Sentence.cells s)) = Sentence.count s
          ∧ Sentence.count s ≠ 0)).
Proof.
  unfold Sentence.known_mines.
  destruct (bool_decide_reflect (Z.of_nat (size (Sentence.cells s)) = Sentence.count s)) as [He|He];
    destruct (bool_decide_reflect (Sentence.count s = 0)) as [H0|H0]; simpl;
    split; split; try discriminate; try tauto; intros; exfalso; tauto.
Qed.

(** C10: on a sentence that contains the cell, [mark_mine] removes the
    cell and subtracts one from the count whatever the count is; from a
    count of 0 the result is -1. *)
Theorem sentence_mark_mine_decrements (s : Sentence.t) (c : cell) :
  c ∈ Sentence.cells s →
  Sentence.cells (Sentence.mark_mine c s) = Sentence.cells s ∖ {[c]}
  ∧ (c ∉ Sentence.cells (Sentence.mark_mine c s))
  ∧ Sentence.count (Sentence.mark_mine c s) = Sentence.count s - 1
  ∧ (Sentence.count s = 0 → Sentence.count (Sentence.mark_mine c s) = -1).
Proof.
  intros Hc. unfold Sentence.mark_mine.
  rewrite bool_decide_eq_true_2 by done. simpl.
  split; [done |]. split; [set_solver |]. split; [done | lia].
Qed.

Lemma sentence_mark_mine_decrements_witness :
  (0, 0) ∈ Sentence.cells (Sentence.Sentence {[(0, 0)]} 0)
  ∧ Sentence.count (Sentence.mark_mine (0, 0) (Sentence.Sentence {[(0, 0)]} 0)) = -1.
Proof.
  split; [vm_compute; reflexivity |].
  apply (sentence_mark_mine_decrements (Sentence.Sentence {[(0, 0)]} 0) (0, 0));
    [vm_compute; reflexivity | reflexivity].
Defined.

(** ** Marking at the engine *)

Lemma sentence_mark_mine_idem (c : cell) (s : Sentence.t) :
  Sentence.mark_mine c (Sentence.mark_mine c s) = Sentence.mark_mine c s.
Proof.
  unfold Sentence.mark_mine at 2 3.
  case_bool_decide as Hc; unfold Sentence.mark_mine; simpl.
  - rewrite bool_decide_eq_false_2; [done | set_solver].
  - by rewrite bool_decide_eq_false_2.
Qed.

Lemma sentence_mark_safe_idem (c : cell) (s : Sentence.t) :
  Sentence.mark_safe c (Sentence.mark_safe c s) = Sentence.mark_safe c s.
Proof.
  unfold Sentence.mark_safe at 2 3.
  case_bool_decide as Hc; unfold Sentence.mark_safe; simpl.
  - rewrite bool_decide_eq_false_2; [done | set_solver].
  - by rewrite bool_decide_eq_false_2.
Qed.

(** C9: marking a cell twice at the engine leaves the engine as marking
    it once does: same [mines], same [safes], same sentences (and same
    [moves_made] and board size, the whole state being equal). *)
Theorem engine_mark_idempotent (ai : MinesweeperAI.t) (c : cell) :
  MinesweeperAI.mark_mine c (MinesweeperAI.mark_mine c ai)
    = MinesweeperAI.mark_mine c ai
  ∧ MinesweeperAI.mark_safe c (MinesweeperAI.mark_safe c ai)
    = MinesweeperAI.mark_safe c ai.
Proof.
  split.
  - unfold MinesweeperAI.mark_mine; simpl. f_equal.
    + set_solver.
    + rewrite <- list_fmap_compose. apply list_fmap_ext.
      intros _ s _. apply sentence_mark_mine_idem.
  - unfold MinesweeperAI.mark_safe; simpl. f_equal.
    + set_solver.
    + rewrite <- list_fmap_compose. apply list_fmap_ext.
      intros _ s _. apply sentence_mark_safe_idem.
Qed.

(** ** Move selection *)

(** C8: [make_safe_move] returns a cell of [safes] outside [moves_made]
    if there is one and [None] if there is none, and the engine it leaves
    is the engine it was given. *)
Theorem make_safe_move_spec (iter : gset cell → list cell)
    (ai : MinesweeperAI.t) :
  iter_ok iter →
  (∀ c, (MinesweeperAI.make_safe_move iter ai).1 = Some c →
        c ∈ MinesweeperAI.safes ai ∧ (c ∉ MinesweeperAI.moves_made ai))
  ∧ ((MinesweeperAI.make_safe_move iter ai).1 = None
     ↔ ∀ c, c ∈ MinesweeperAI.safes ai → c ∈ MinesweeperAI.moves_made ai)
  ∧ (MinesweeperAI.make_safe_move iter ai).2 = ai.
Proof.
  intros Hit. unfold MinesweeperAI.make_safe_move; simpl.
  split; [| split; [| done]].
  - intros c Hf. apply find_some in Hf as [Hin Hb].
    apply list_elem_of_In, (iter_elem _ Hit) in Hin.
    apply negb_true_iff, bool_decide_eq_false in Hb. done.
  - split.
    + intros Hf c Hc.
      apply (iter_elem _ Hit), list_elem_of_In in Hc.
      pose proof (find_none _ _ Hf c Hc) as Hb. simpl in Hb.
      apply negb_false_iff, bool_decide_eq_true in Hb. done.
    + intros Hall.
      destruct (find _ _) as [c|] eqn:Hf; [| done].
      apply find_some in Hf as [Hin Hb].
      apply list_elem_of_In, (iter_elem _ Hit) in Hin.
      apply negb_true_iff, bool_decide_eq_false in Hb.
      destruct Hb. by apply Hall.
Qed.

Lemma elem_of_range (a b x : Z) : x ∈ range a b ↔ a <= x < b.
Proof.
  unfold range. rewrite list_elem_of_fmap. split.
  - intros (k & -> & Hk). apply elem_of_seq in Hk. lia.
  - intros Hx. exists (Z.to_nat (x - a)). split; [lia |].
    apply elem_of_seq. lia.
Qed.

Lemma elem_of_candidate_moves (ai : MinesweeperAI.t) (c : cell) :
  c ∈ MinesweeperAI.candidate_moves ai
  ↔ on_board (MinesweeperAI.height ai) (MinesweeperAI.width ai) c
    ∧ (c ∉ MinesweeperAI.moves_made ai) ∧ (c ∉ MinesweeperAI.mines ai).
Proof.
  unfold MinesweeperAI.candidate_moves, on_board.
  rewrite list_elem_of_bind. split.
  - intros (i & Hc & Hi). apply list_elem_of_bind in Hc as (j & Hc & Hj).
    apply elem_of_range in Hi, Hj.
    repeat case_bool_decide; simpl in Hc; try (by apply elem_of_nil in Hc).
    apply list_elem_of_singleton in Hc as ->. simpl. done.
  - intros (([? ?] & [? ?]) & Hm & Hn). destruct c as [i j]; simpl in *.
    exists i. split; [| by apply elem_of_range].
    apply list_elem_of_bind. exists j. split; [| by apply elem_of_range].
    rewrite !bool_decide_eq_false_2 by done. simpl.
    by apply list_elem_of_singleton.
Qed.

(** C7: [make_random_move] returns a cell of the board that is neither
    played nor a known mine, returns [None] exactly when there is no such
    cell, and never fails. *)
Theorem make_random_move_spec (randbelow : nat → nat)
    (ai : MinesweeperAI.t) :
  randbelow_ok randbelow →
  (∀ c, (MinesweeperAI.make_random_move randbelow ai).1 = Some c →
        on_board (MinesweeperAI.height ai) (MinesweeperAI.width ai) c
        ∧ (c ∉ MinesweeperAI.moves_made ai) ∧ (c ∉ MinesweeperAI.mines ai))
  ∧ ((MinesweeperAI.make_random_move randbelow ai).1 = None
     ↔ ∀ c, on_board (MinesweeperAI.height ai) (MinesweeperAI.width ai) c →
            c ∈ MinesweeperAI.moves_made ai ∨ c ∈ MinesweeperAI.mines ai)
  ∧ (MinesweeperAI.make_random_move randbelow ai).2 = ai.
Proof.
  intros Hrb. unfold MinesweeperAI.make_random_move; simpl.
  split; [| split; [| done]].
  - intros c Hc. apply elem_of_candidate_moves.
    destruct (length _ =? 0)%nat; simpl in Hc; [done |].
    by eapply list_elem_of_lookup_2.
  - destruct (MinesweeperAI.candidate_moves ai) as [| m moves] eqn:Hmoves; simpl.
    + split; [| done]. intros _ c Hc.
      destruct (decide (c ∈ MinesweeperAI.moves_made ai)); [by left |].
      destruct (decide (c ∈ MinesweeperAI.mines ai)); [by right |].
      assert (c ∈ MinesweeperAI.candidate_moves ai) as Hin
        by by apply elem_of_candidate_moves.
      rewrite Hmoves in Hin. by apply elem_of_nil in Hin.
    + split.
      * intros Hnone. apply lookup_ge_None in Hnone.
        pose proof (Hrb (S (length moves)) ltac:(lia)). simpl in Hnone. lia.
      * intros Hall.
        assert (m ∈ MinesweeperAI.candidate_moves ai) as Hin
          by (rewrite Hmoves; apply list_elem_of_here).
        apply elem_of_candidate_moves in Hin as (Hb & ? & ?).
        destruct (Hall m Hb); done.
Qed.

(** ** The neighbour constraint *)

(** The nine cells the double loop of [neighbors] visits, in its order. *)
Lemma neighbors_unfold (ai : MinesweeperAI.t) (c : cell) (n : Z) :
  MinesweeperAI.neighbors ai c n
  = let acc := foldl (MinesweeperAI.neighbors_step ai c) (∅, n)
        [(c.1 - 1 + 0, c.2 - 1 + 0); (c.1 - 1 + 0, c.2 - 1 + 1);
         (c.1 - 1 + 0, c.2 - 1 + 2);
         (c.1 - 1 + 1, c.2 - 1 + 0); (c.1 - 1 + 1, c.2 - 1 + 1);
         (c.1 - 1 + 1, c.2 - 1 + 2);
         (c.1 - 1 + 2, c.2 - 1 + 0); (c.1 - 1 + 2, c.2 - 1 + 1);
         (c.1 - 1 + 2, c.2 - 1 + 2)] in
    Sentence.Sentence acc.1 acc.2.
Proof.
  unfold MinesweeperAI.neighbors, range.
  replace (c.1 + 2 - (c.1 - 1)) with 3 by lia.
  replace (c.2 + 2 - (c.2 - 1)) with 3 by lia.
  cbn [Z.to_nat Pos.to_nat Pos.iter_op Nat.add seq fmap list_fmap foldl Z.of_nat Pos.of_succ_nat Pos.succ].
  reflexivity.
Qed.

Lemma in_board_on_board (ai : MinesweeperAI.t) (p : cell) :
  MinesweeperAI.in_board ai p = true
  ↔ on_board (MinesweeperAI.height ai) (MinesweeperAI.width ai) p.
Proof.
  unfold MinesweeperAI.in_board, on_board.
  rewrite !andb_true_iff, !Z.leb_le, !Z.ltb_lt. tauto.
Qed.

Lemma elem_of_adjacent (h w : Z) (c p : cell) :
  p ∈ adjacent h w c ↔ around c p ∧ on_board h w p.
Proof.
  unfold adjacent, around.
  rewrite elem_of_filter, elem_of_list_to_set, !elem_of_cons, elem_of_nil.
  unfold on_board. destruct c as [ci cj], p as [pi pj]; cbn [fst snd].
  split.
  - intros [Hb Hp]. split; [| done].
    repeat destruct Hp as [Hp | Hp]; try (exfalso; exact Hp);
      injection Hp as -> ->; (split; [intros [=]; lia | lia]).
  - intros [(Hne & Hi & Hj) Hb]. split; [exact Hb |].
    assert (pi = ci - 1 ∨ pi = ci ∨ pi = ci + 1) as Hi' by lia.
    assert (pj = cj - 1 ∨ pj = cj ∨ pj = cj + 1) as Hj' by lia.
    destruct Hi' as [-> | [-> | ->]], Hj' as [-> | [-> | ->]];
      try (exfalso; apply Hne; reflexivity); tauto.
Qed.

(** What the loop body has accumulated after a list of distinct cells. *)
Lemma neighbors_step_foldl (ai : MinesweeperAI.t) (c : cell)
    (l : list cell) (X : gset cell) (n : Z) :
  let known p := p ≠ c ∧ MinesweeperAI.in_board ai p = true
                 ∧ p ∈ MinesweeperAI.mines ai in
  let kept p := p ≠ c ∧ MinesweeperAI.in_board ai p = true
                ∧ (p ∉ MinesweeperAI.mines ai)
                ∧ ¬ (p ∈ MinesweeperAI.safes ai
                     ∧ p ∈ MinesweeperAI.moves_made ai) in
  foldl (MinesweeperAI.neighbors_step ai c) (X, n) l
  = (X ∪ list_to_set (filter kept l),
     n - Z.of_nat (length (filter known l))).
Proof.
  intros known kept. revert X n.
  induction l as [| p l IH]; intros X n; simpl.
  - f_equal; [set_solver | lia].
  - unfold MinesweeperAI.neighbors_step at 2.
    rewrite !filter_cons. subst known kept. simpl.
    destruct (decide (p = c)) as [Hpc | Hpc].
    { rewrite bool_decide_eq_true_2 by done.
      rewrite !decide_False by tauto. apply IH. }
    rewrite bool_decide_eq_false_2 by done.
    destruct (MinesweeperAI.in_board ai p) eqn:Hb.
    2:{ rewrite !decide_False by (intros (? & ? & ?); done). apply IH. }
    destruct (decide (p ∈ MinesweeperAI.mines ai)) as [Hm | Hm].
    { rewrite bool_decide_eq_true_2 by done.
      rewrite decide_False by tauto. rewrite decide_True by done.
      simpl. rewrite IH. f_equal. lia. }
    rewrite bool_decide_eq_false_2 by done.
    rewrite (decide_False (P := _ ∧ _ ∧ p ∈ _)) by tauto.
    destruct (decide (p ∈ MinesweeperAI.safes ai)) as [Hs | Hs];
      destruct (decide (p ∈ MinesweeperAI.moves_made ai)) as [Hv | Hv];
      rewrite ?(bool_decide_eq_true_2 (p ∈ MinesweeperAI.safes ai)),
              ?(bool_decide_eq_false_2 (p ∈ MinesweeperAI.safes ai)),
              ?(bool_decide_eq_true_2 (p ∈ MinesweeperAI.moves_made ai)),
              ?(bool_decide_eq_false_2 (p ∈ MinesweeperAI.moves_made ai))
        by done; simpl.
    1:{ rewrite decide_False by tauto. apply IH. }
    all: rewrite decide_True by tauto; rewrite IH; f_equal; set_solver.
Qed.

Lemma neighbors_eq_spec (ai : MinesweeperAI.t) (c : cell) (n : Z) :
  MinesweeperAI.neighbors ai c n = neighbors_spec ai c n.
Proof.
  rewrite neighbors_unfold. cbv zeta.
  rewrite neighbors_step_foldl. cbv zeta. simpl fst; simpl snd.
  unfold neighbors_spec.
  set (l := [_; _; _; _; _; _; _; _; _]).
  assert (NoDup l) as Hnd.
  { subst l. apply NoDup_ListNoDup.
    repeat (constructor; [simpl; intros H;
      repeat (destruct H as [H | H]; [injection H; lia |]); done |]).
    constructor. }
  assert (∀ p, p ∈ l ∧ p ≠ c ∧ MinesweeperAI.in_board ai p = true
               ↔ p ∈ adjacent (MinesweeperAI.height ai)
                              (MinesweeperAI.width ai) c) as Hadj.
  { intros p. rewrite elem_of_adjacent, in_board_on_board.
    unfold around. subst l. destruct c as [ci cj], p as [pi pj]; simpl.
    rewrite !elem_of_cons, elem_of_nil. split.
    - intros (Hp & Hne & Hb). split; [| done]. split; [done |].
      repeat destruct Hp as [Hp | Hp]; try done; injection Hp as -> ->; lia.
    - intros ((Hne & Hi & Hj) & Hb). split; [| done].
      assert (pi = ci - 1 + 0 ∨ pi = ci - 1 + 1 ∨ pi = ci - 1 + 2) as Hi' by lia.
      assert (pj = cj - 1 + 0 ∨ pj = cj - 1 + 1 ∨ pj = cj - 1 + 2) as Hj' by lia.
      destruct Hi' as [-> | [-> | ->]], Hj' as [-> | [-> | ->]]; tauto. }
  f_equal.
  - apply set_eq. intros p.
    rewrite elem_of_filter, elem_of_difference, <- Hadj.
    rewrite elem_of_union, elem_of_list_to_set, list_elem_of_filter.
    split; [intros [H | H]; [by apply elem_of_empty in H | tauto] | tauto].
  - f_equal. f_equal.
    rewrite <- (size_list_to_set (C := gset cell))
      by (by apply NoDup_filter).
    f_equal. apply set_eq. intros p.
    rewrite elem_of_list_to_set, list_elem_of_filter, elem_of_intersection,
      <- Hadj. tauto.
Qed.

(** C5: the sentence [neighbors] builds is the one section 4.3 of the
    spec describes: of the in-bounds cells around [cell], those in [mines]
    are left out and each takes one off the count, and the others are kept
    unless they are in [safes] and in [moves_made]. *)
Theorem neighbors_refines_spec (ai : MinesweeperAI.t) (c : cell) (n : Z) :
  MinesweeperAI.neighbors ai c n = neighbors_spec ai c n
  ∧ ∀ p, p ∈ adjacent (MinesweeperAI.height ai) (MinesweeperAI.width ai) c
         ↔ around c p
           ∧ on_board (MinesweeperAI.height ai) (MinesweeperAI.width ai) p.
Proof.
  split; [apply neighbors_eq_spec | intros p; apply elem_of_adjacent].
Qed.

(** ** Counting the mines of a board in a set of cells *)

Lemma mines_in_union (board : cell → bool) (X Y : gset cell) :
  X ## Y → mines_in board (X ∪ Y) = mines_in board X + mines_in board Y.
Proof.
  intros Hd. unfold mines_in. rewrite filter_union_L; [| apply _].
  rewrite size_union by (by apply disjoint_filter). lia.
Qed.

Lemma mines_in_split (board : cell → bool) (X Y : gset cell) :
  Y ⊆ X → mines_in board X = mines_in board (X ∖ Y) + mines_in board Y.
Proof.
  intros Hsub. rewrite <- mines_in_union by set_solver.
  f_equal. apply set_eq. intros p.
  rewrite elem_of_union, elem_of_difference.
  destruct (decide (p ∈ Y)); set_solver.
Qed.

Lemma mines_in_singleton (board : cell → bool) (c : cell) :
  mines_in board {[c]} = if board c then 1 else 0.
Proof.
  unfold mines_in. destruct (board c) eqn:Hc.
  - rewrite filter_singleton_True_L; [| apply _ | done]. by rewrite size_singleton.
  - rewrite filter_singleton_False_L; [| apply _ | congruence]. by rewrite size_empty.
Qed.

Lemma mines_in_range (board : cell → bool) (X : gset cell) :
  0 <= mines_in board X <= Z.of_nat (size X).
Proof.
  unfold mines_in. split; [lia |].
  apply inj_le, subseteq_size. intros p Hp.
  by apply elem_of_filter in Hp as [_ ?].
Qed.

Lemma mines_in_none (board : cell → bool) (X : gset cell) :
  mines_in board X = 0 → ∀ p, p ∈ X → board p = false.
Proof.
  unfold mines_in. intros Hz p Hp.
  assert (size (filter (λ p, board p = true) X) = 0%nat) as Hs by lia.
  apply size_empty_inv in Hs.
  destruct (board p) eqn:Hb; [| done].
  exfalso. apply (not_elem_of_empty (C := gset cell) p), Hs.
  by apply elem_of_filter.
Qed.

Lemma mines_in_all (board : cell → bool) (X : gset cell) :
  mines_in board X = Z.of_nat (size X) → ∀ p, p ∈ X → board p = true.
Proof.
  intros Hall p Hp.
  destruct (board p) eqn:Hb; [done | exfalso].
  pose proof (mines_in_split board X {[p]} ltac:(set_solver)) as Hsplit.
  rewrite mines_in_singleton, Hb in Hsplit.
  pose proof (mines_in_range board (X ∖ {[p]})) as Hr.
  rewrite size_difference in Hr by set_solver.
  rewrite size_singleton in Hr.
  assert (size X ≠ 0%nat) as Hne.
  { intros H0. apply size_empty_inv in H0.
    by apply (not_elem_of_empty (C := gset cell) p), H0. }
  lia.
Qed.

(** ** Marking a cell keeps true sentences true *)

Lemma holds_range (board : cell → bool) (s : Sentence.t) :
  holds board s →
  0 <= Sentence.count s <= Z.of_nat (size (Sentence.cells s)).
Proof. unfold holds. intros ->. apply mines_in_range. Qed.

Lemma holds_mark_mine (board : cell → bool) (c : cell) (s : Sentence.t) :
  board c = true → holds board s → holds board (Sentence.mark_mine c s).
Proof.
  unfold holds, Sentence.mark_mine. intros Hc Hs.
  case_bool_decide as Hin; [| done]. simpl.
  rewrite (mines_in_split board _ {[c]}) in Hs by set_solver.
  rewrite mines_in_singleton, Hc in Hs. lia.
Qed.

Lemma holds_mark_safe (board : cell → bool) (c : cell) (s : Sentence.t) :
  board c = false → holds board s → holds board (Sentence.mark_safe c s).
Proof.
  unfold holds, Sentence.mark_safe. intros Hc Hs.
  case_bool_decide as Hin; [| done]. simpl.
  rewrite (mines_in_split board _ {[c]}) in Hs by set_solver.
  rewrite mines_in_singleton, Hc in Hs. lia.
Qed.

Lemma sound_mark_mine (board : cell → bool) (c : cell) (ai : MinesweeperAI.t) :
  board c = true → sound board ai → sound board (MinesweeperAI.mark_mine c ai).
Proof.
  intros Hc [Hm Hs Hk]. split; simpl.
  - intros p [->%elem_of_singleton | Hp]%elem_of_union; auto.
  - done.
  - apply Forall_fmap. eapply Forall_impl; [exact Hk |].
    intros s. by apply holds_mark_mine.
Qed.

Lemma sound_mark_safe (board : cell → bool) (c : cell) (ai : MinesweeperAI.t) :
  board c = false → sound board ai → sound board (MinesweeperAI.mark_safe c ai).
Proof.
  intros Hc [Hm Hs Hk]. split; simpl.
  - done.
  - intros p [->%elem_of_singleton | Hp]%elem_of_union; auto.
  - apply Forall_fmap. eapply Forall_impl; [exact Hk |].
    intros s. by apply holds_mark_safe.
Qed.

Lemma sound_set_knowledge (board : cell → bool) (k : list Sentence.t)
    (ai : MinesweeperAI.t) :
  Forall (holds board) k → sound board ai →
  sound board (MinesweeperAI.set_knowledge k ai).
Proof. intros Hk [Hm Hs _]. by split. Qed.

Lemma mines_in_full (board : cell → bool) (X : gset cell) :
  (∀ p, p ∈ X → board p = true) → mines_in board X = Z.of_nat (size X).
Proof.
  intros Hall. unfold mines_in. f_equal. f_equal.
  apply set_eq. intros p. rewrite elem_of_filter. naive_solver.
Qed.

(** ** The inference keeps the engine's beliefs true *)

Section Soundness.
Variable iter : gset cell → list cell.
Variable dedup : list Sentence.t → list Sentence.t.
Variable board : cell → bool.
Hypothesis iter_good : iter_ok iter.
Hypothesis dedup_good : dedup_ok dedup.

Lemma sound_mark_each_mine (X : gset cell) (ai : MinesweeperAI.t) :
  (∀ p, p ∈ X → board p = true) → sound board ai →
  sound board
    (MinesweeperAI.mark_each iter MinesweeperAI.mark_mine (Some X) ai).
Proof.
  intros HX. unfold MinesweeperAI.mark_each.
  assert (∀ p, p ∈ iter X → board p = true) as Hl
    by (intros p Hp; by apply HX, (iter_elem _ iter_good)).
  clear HX. revert ai.
  induction (iter X) as [| c l IH]; intros ai Hai; simpl; [done |].
  apply IH.
  - intros p Hp. apply Hl. by apply list_elem_of_further.
  - apply sound_mark_mine; [| done]. apply Hl, list_elem_of_here.
Qed.

Lemma sound_mark_each_safe (X : gset cell) (ai : MinesweeperAI.t) :
  (∀ p, p ∈ X → board p = false) → sound board ai →
  sound board
    (MinesweeperAI.mark_each iter MinesweeperAI.mark_safe (Some X) ai).
Proof.
  intros HX. unfold MinesweeperAI.mark_each.
  assert (∀ p, p ∈ iter X → board p = false) as Hl
    by (intros p Hp; by apply HX, (iter_elem _ iter_good)).
  clear HX. revert ai.
  induction (iter X) as [| c l IH]; intros ai Hai; simpl; [done |].
  apply IH.
  - intros p Hp. apply Hl. by apply list_elem_of_further.
  - apply sound_mark_safe; [| done]. apply Hl, list_elem_of_here.
Qed.

Lemma sound_known_mines (s : Sentence.t) (ai : MinesweeperAI.t) :
  holds board s → sound board ai →
  sound board
    (MinesweeperAI.mark_each iter MinesweeperAI.mark_mine
       (Sentence.known_mines s) ai).
Proof.
  intros Hs Hai. unfold Sentence.known_mines.
  destruct (_ && _) eqn:Hc; [| done].
  apply andb_true_iff in Hc as [Hc _]. apply bool_decide_eq_true in Hc.
  apply sound_mark_each_mine; [| done].
  apply mines_in_all. unfold holds in Hs. congruence.
Qed.

Lemma sound_known_safes (s : Sentence.t) (ai : MinesweeperAI.t) :
  holds board s → sound board ai →
  sound board
    (MinesweeperAI.mark_each iter MinesweeperAI.mark_safe
       (Sentence.known_safes s) ai).
Proof.
  intros Hs Hai. unfold Sentence.known_safes.
  case_bool_decide as Hc; [| done].
  apply sound_mark_each_safe; [| done].
  apply mines_in_none. unfold holds in Hs. congruence.
Qed.

Lemma sound_lookup (ai : MinesweeperAI.t) (i : nat) (s : Sentence.t) :
  sound board ai → MinesweeperAI.knowledge ai !! i = Some s → holds board s.
Proof.
  intros [_ _ Hk] Hi. by eapply (proj1 (Forall_lookup _ _) Hk).
Qed.

Lemma sound_extract_at (ai : MinesweeperAI.t) (i : nat) :
  sound board ai → sound board (MinesweeperAI.extract_at iter ai i).
Proof.
  intros Hai. unfold MinesweeperAI.extract_at.
  destruct (MinesweeperAI.knowledge ai !! i) as [s |] eqn:Hs; [| done].
  cbv zeta.
  set (ai1 := if truthy (Sentence.known_mines s) then _ else ai).
  assert (sound board ai1) as Hai1.
  { subst ai1. destruct (truthy _); [| done].
    apply sound_known_mines; [| done]. by eapply sound_lookup. }
  destruct (MinesweeperAI.knowledge ai1 !! i) as [s' |] eqn:Hs'; [| done].
  destruct (truthy (Sentence.known_safes s')); [| done].
  apply sound_known_safes; [| done]. by eapply sound_lookup.
Qed.

Lemma sound_extract_pass (ai : MinesweeperAI.t) :
  sound board ai → sound board (MinesweeperAI.extract_pass iter ai).
Proof.
  unfold MinesweeperAI.extract_pass.
  generalize (seq 0 (length (MinesweeperAI.knowledge ai))). intros l.
  revert ai. induction l as [| i l IH]; intros ai Hai; simpl; [done |].
  by apply IH, sound_extract_at.
Qed.

Lemma holds_neighbors (ai : MinesweeperAI.t) (c : cell) :
  sound board ai →
  holds board
    (MinesweeperAI.neighbors ai c
       (oracle_count board (MinesweeperAI.height ai)
          (MinesweeperAI.width ai) c)).
Proof.
  intros [Hm Hs _].
  rewrite neighbors_eq_spec.
  unfold neighbors_spec, holds, oracle_count. cbv zeta. simpl.
  set (adj := adjacent _ _ c).
  rewrite (mines_in_split board adj (adj ∩ MinesweeperAI.mines ai))
    by set_solver.
  rewrite (mines_in_full board (adj ∩ MinesweeperAI.mines ai))
    by (intros p [_ Hp]%elem_of_intersection; by apply Hm).
  replace (adj ∖ (adj ∩ MinesweeperAI.mines ai))
    with (adj ∖ MinesweeperAI.mines ai) by set_solver.
  match goal with |- ?a + ?b - ?b = ?c => enough (a = c) by lia end.
  unfold mines_in. f_equal. f_equal. apply set_eq. intros p.
  rewrite !elem_of_filter. split; [| tauto].
  intros [Hp Hin]. repeat split; try done.
  intros [Hsafe _]. apply Hs in Hsafe. congruence.
Qed.

Lemma holds_derive_inner (i : Sentence.t) (snapshot k : list Sentence.t) :
  holds board i → Forall (holds board) snapshot → Forall (holds board) k →
  Forall (holds board) (MinesweeperAI.derive_inner i snapshot k).
Proof.
  intros Hi Hsn. unfold MinesweeperAI.derive_inner. revert k.
  induction Hsn as [| j snapshot Hj Hsn IH]; intros k Hk; simpl; [done |].
  apply IH. case_bool_decide; [done |]. case_bool_decide as Hsub; [| done].
  apply Forall_app. split; [done |]. apply Forall_singleton.
  unfold holds in *. simpl.
  rewrite (mines_in_split board _ _ Hsub) in Hi. lia.
Qed.

Lemma holds_derive_pass (k0 : list Sentence.t) :
  Forall (holds board) k0 →
  Forall (holds board) (MinesweeperAI.derive_pass k0).
Proof.
  unfold MinesweeperAI.derive_pass. intros Hk0.
  assert (∀ l k, Forall (holds board) l → Forall (holds board) k →
                 Forall (holds board)
                   (foldl (λ k i, MinesweeperAI.derive_inner i k k) k l))
    as Hgen.
  { induction l as [| i l IH]; intros k Hl Hk; simpl; [done |].
    apply Forall_cons in Hl as [Hi Hl].
    apply IH; [done |]. by apply holds_derive_inner. }
  by apply Hgen.
Qed.

Lemma sound_infer (c : cell) (n : Z) (ai : MinesweeperAI.t) :
  oracle_obs board (MinesweeperAI.height ai) (MinesweeperAI.width ai) (c, n) →
  sound board ai → sound board (MinesweeperAI.infer iter c n ai).
Proof.
  intros [Hc Hn] Hai. simpl in Hc, Hn. unfold MinesweeperAI.infer. cbv zeta.
  set (ai1 := MinesweeperAI.MinesweeperAI _ _ _ _ _ _).
  assert (sound board ai1) as Hai1 by (destruct Hai; by split).
  set (ai2 := if bool_decide _ then ai1 else _).
  assert (sound board ai2) as Hai2.
  { subst ai2. case_bool_decide; [done |]. by apply sound_mark_safe. }
  assert (MinesweeperAI.height ai2 = MinesweeperAI.height ai
          ∧ MinesweeperAI.width ai2 = MinesweeperAI.width ai) as [Hh Hw].
  { subst ai2. by case_bool_decide. }
  apply sound_set_knowledge.
  - apply holds_derive_pass, sound_knowledge, sound_extract_pass.
    apply sound_set_knowledge; [| done].
    apply Forall_app. split; [by destruct Hai2 |].
    apply Forall_singleton. rewrite Hn, <- Hh, <- Hw.
    by apply holds_neighbors.
  - apply sound_extract_pass, sound_set_knowledge; [| done].
    apply Forall_app. split; [by destruct Hai2 |].
    apply Forall_singleton. rewrite Hn, <- Hh, <- Hw.
    by apply holds_neighbors.
Qed.

Lemma sound_add_knowledge (c : cell) (n : Z) (ai : MinesweeperAI.t) :
  oracle_obs board (MinesweeperAI.height ai) (MinesweeperAI.width ai) (c, n) →
  sound board ai → sound board (MinesweeperAI.add_knowledge iter dedup c n ai).
Proof.
  intros Hobs Hai. unfold MinesweeperAI.add_knowledge. cbv zeta.
  pose proof (sound_infer c n ai Hobs Hai) as Hinf.
  apply sound_set_knowledge; [| done].
  apply Forall_forall. intros s Hs.
  apply (proj1 (dedup_elem dedup dedup_good _ s)) in Hs.
  destruct Hinf as [_ _ Hk]. rewrite Forall_forall in Hk. by apply Hk.
Qed.
End Soundness.

(** ** The board size never changes *)

Lemma mark_each_board (iter : gset cell → list cell)
    (mark : cell → MinesweeperAI.t → MinesweeperAI.t)
    (r : option (gset cell)) (ai : MinesweeperAI.t) :
  (∀ c a, MinesweeperAI.height (mark c a) = MinesweeperAI.height a
          ∧ MinesweeperAI.width (mark c a) = MinesweeperAI.width a) →
  MinesweeperAI.height (MinesweeperAI.mark_each iter mark r ai)
    = MinesweeperAI.height ai
  ∧ MinesweeperAI.width (MinesweeperAI.mark_each iter mark r ai)
    = MinesweeperAI.width ai.
Proof.
  intros Hmark. destruct r as [X |]; simpl; [| done].
  revert ai. induction (iter X) as [| c l IH]; intros ai; simpl; [done |].
  destruct (IH (mark c ai)) as [-> ->]. apply Hmark.
Qed.

Lemma extract_at_board (iter : gset cell → list cell)
    (ai : MinesweeperAI.t) (i : nat) :
  MinesweeperAI.height (MinesweeperAI.extract_at iter ai i)
    = MinesweeperAI.height ai
  ∧ MinesweeperAI.width (MinesweeperAI.extract_at iter ai i)
    = MinesweeperAI.width ai.
Proof.
  unfold MinesweeperAI.extract_at.
  destruct (MinesweeperAI.knowledge ai !! i) as [s |]; [| done]. cbv zeta.
  set (ai1 := if truthy (Sentence.known_mines s) then _ else ai).
  assert (MinesweeperAI.height ai1 = MinesweeperAI.height ai
          ∧ MinesweeperAI.width ai1 = MinesweeperAI.width ai) as [Hh Hw].
  { subst ai1. destruct (truthy (Sentence.known_mines s)); [| done].
    by apply mark_each_board. }
  destruct (MinesweeperAI.knowledge ai1 !! i) as [s' |]; [| done].
  destruct (truthy (Sentence.known_safes s')); [| done].
  rewrite <- Hh, <- Hw. by apply mark_each_board.
Qed.

Lemma extract_pass_board (iter : gset cell → list cell)
    (ai : MinesweeperAI.t) :
  MinesweeperAI.height (MinesweeperAI.extract_pass iter ai)
    = MinesweeperAI.height ai
  ∧ MinesweeperAI.width (MinesweeperAI.extract_pass iter ai)
    = MinesweeperAI.width ai.
Proof.
  unfold MinesweeperAI.extract_pass.
  generalize (seq 0 (length (MinesweeperAI.knowledge ai))). intros l.
  revert ai. induction l as [| i l IH]; intros ai; simpl; [done |].
  destruct (IH (MinesweeperAI.extract_at iter ai i)) as [-> ->].
  apply extract_at_board.
Qed.

Lemma add_knowledge_board (iter : gset cell → list cell)
    (dedup : list Sentence.t → list Sentence.t)
    (c : cell) (n : Z) (ai : MinesweeperAI.t) :
  MinesweeperAI.height (MinesweeperAI.add_knowledge iter dedup c n ai)
    = MinesweeperAI.height ai
  ∧ MinesweeperAI.width (MinesweeperAI.add_knowledge iter dedup c n ai)
    = MinesweeperAI.width ai.
Proof.
  unfold MinesweeperAI.add_knowledge, MinesweeperAI.infer. cbv zeta. simpl.
  match goal with
  | |- context [MinesweeperAI.extract_pass iter ?a] =>
      destruct (extract_pass_board iter a) as [-> ->]
  end.
  simpl. by case_bool_decide.
Qed.

Lemma run_op_board (iter : gset cell → list cell)
    (dedup : list Sentence.t → list Sentence.t) (randbelow : nat → nat)
    (ai : MinesweeperAI.t) (o : op) :
  MinesweeperAI.height (run_op iter dedup randbelow ai o)
    = MinesweeperAI.height ai
  ∧ MinesweeperAI.width (run_op iter dedup randbelow ai o)
    = MinesweeperAI.width ai.
Proof.
  destruct o as [c | c | c n | |]; [done | done | | done | done].
  apply add_knowledge_board.
Qed.

(** ** Runs that agree with a board *)

Lemma sound_init (board : cell → bool) (h w : Z) :
  sound board (MinesweeperAI.init h w).
Proof. split; simpl; [set_solver | set_solver | constructor]. Qed.

Lemma sound_observe_all (iter : gset cell → list cell)
    (dedup : list Sentence.t → list Sentence.t) (board : cell → bool)
    (obs : list (cell * Z)) (ai : MinesweeperAI.t) :
  iter_ok iter → dedup_ok dedup →
  Forall (oracle_obs board (MinesweeperAI.height ai) (MinesweeperAI.width ai))
         obs →
  sound board ai → sound board (observe_all iter dedup obs ai).
Proof.
  intros Hiter Hdedup. unfold observe_all. revert ai.
  induction obs as [| [c n] obs IH]; intros ai Hobs Hai; simpl; [done |].
  apply Forall_cons in Hobs as [Ho Hobs].
  apply IH.
  - by destruct (add_knowledge_board iter dedup c n ai) as [-> ->].
  - by apply sound_add_knowledge.
Qed.

Lemma sound_run (iter : gset cell → list cell)
    (dedup : list Sentence.t → list Sentence.t) (randbelow : nat → nat)
    (board : cell → bool) (ops : list op) (ai : MinesweeperAI.t) :
  iter_ok iter → dedup_ok dedup →
  Forall (op_agrees board (MinesweeperAI.height ai) (MinesweeperAI.width ai))
         ops →
  sound board ai → sound board (run iter dedup randbelow ops ai).
Proof.
  intros Hiter Hdedup. unfold run. revert ai.
  induction ops as [| o ops IH]; intros ai Hops Hai; simpl; [done |].
  apply Forall_cons in Hops as [Ho Hops].
  apply IH.
  - by destruct (run_op_board iter dedup randbelow ai o) as [-> ->].
  - destruct o; simpl in *; try done.
    + by apply sound_mark_mine.
    + by apply sound_mark_safe.
    + by apply sound_add_knowledge.
Qed.

(** C3: after any sequence of [add_knowledge] calls, every retained
    sentence has a count between 0 and the number of its cells.  The calls
    are those of the contract of [add_knowledge] (sections 4.2 and 6 of the
    spec): each reports, for a cell that is no mine of the board, the number
    of mines around it. *)
Theorem oracle_runs_keep_counts_in_range (iter : gset cell → list cell)
    (dedup : list Sentence.t → list Sentence.t) (board : cell → bool)
    (h w : Z) (obs : list (cell * Z)) (s : Sentence.t) :
  iter_ok iter → dedup_ok dedup →
  Forall (oracle_obs board h w) obs →
  s ∈ MinesweeperAI.knowledge
        (observe_all iter dedup obs (MinesweeperAI.init h w)) →
  0 <= Sentence.count s <= Z.of_nat (size (Sentence.cells s)).
Proof.
  intros Hiter Hdedup Hobs Hs.
  apply (holds_range board).
  pose proof (sound_observe_all iter dedup board obs (MinesweeperAI.init h w)
                Hiter Hdedup Hobs (sound_init board h w)) as [_ _ Hk].
  rewrite Forall_forall in Hk. by apply Hk.
Qed.

(** C4 (as amended): along any sequence of engine operations that agrees
    with some board ([mark_mine] on its mines, [mark_safe] on its other
    cells, [add_knowledge] with what the oracle reports, the two move
    suggestions freely), [mines] and [safes] are disjoint after each
    operation. *)
Theorem agreeing_runs_keep_mines_safes_disjoint
    (iter : gset cell → list cell)
    (dedup : list Sentence.t → list Sentence.t) (randbelow : nat → nat)
    (board : cell → bool) (h w : Z) (ops : list op) (k : nat) :
  iter_ok iter → dedup_ok dedup →
  Forall (op_agrees board h w) ops →
  MinesweeperAI.mines
    (run iter dedup randbelow (take k ops) (MinesweeperAI.init h w))
  ## MinesweeperAI.safes
       (run iter dedup randbelow (take k ops) (MinesweeperAI.init h w)).
Proof.
  intros Hiter Hdedup Hops.
  pose proof (sound_run iter dedup randbelow board (take k ops)
                (MinesweeperAI.init h w) Hiter Hdedup
                (Forall_take _ k _ Hops) (sound_init board h w))
    as [Hm Hs _].
  intros p Hpm Hps. apply Hm in Hpm. apply Hs in Hps. congruence.
Qed.

(** ** No retained sentence mentions a known mine

    This half of the invariant of section 3 of the spec holds for every
    input, on or off the oracle's contract.  (The other half, about
    [safes], is what [neighbors] breaks; see the run on the row board.) *)

Lemma sentence_mark_mine_cells (c : cell) (s : Sentence.t) :
  Sentence.cells (Sentence.mark_mine c s) = Sentence.cells s ∖ {[c]}.
Proof.
  unfold Sentence.mark_mine. case_bool_decide; simpl; set_solver.
Qed.

Lemma sentence_mark_safe_cells (c : cell) (s : Sentence.t) :
  Sentence.cells (Sentence.mark_safe c s) = Sentence.cells s ∖ {[c]}.
Proof.
  unfold Sentence.mark_safe. case_bool_decide; simpl; set_solver.
Qed.

Lemma avoid_mark_mine (c : cell) (ai : MinesweeperAI.t) :
  Forall (λ s, Sentence.cells s ## MinesweeperAI.mines ai)
         (MinesweeperAI.knowledge ai) →
  Forall (λ s, Sentence.cells s
               ## MinesweeperAI.mines (MinesweeperAI.mark_mine c ai))
         (MinesweeperAI.knowledge (MinesweeperAI.mark_mine c ai)).
Proof.
  intros Hk. simpl. apply Forall_fmap.
  eapply Forall_impl; [exact Hk |]. intros s Hs. simpl.
  rewrite sentence_mark_mine_cells. set_solver.
Qed.

Lemma avoid_mark_safe (c : cell) (ai : MinesweeperAI.t) :
  Forall (λ s, Sentence.cells s ## MinesweeperAI.mines ai)
         (MinesweeperAI.knowledge ai) →
  Forall (λ s, Sentence.cells s
               ## MinesweeperAI.mines (MinesweeperAI.mark_safe c ai))
         (MinesweeperAI.knowledge (MinesweeperAI.mark_safe c ai)).
Proof.
  intros Hk. simpl. apply Forall_fmap.
  eapply Forall_impl; [exact Hk |]. intros s Hs. simpl.
  rewrite sentence_mark_safe_cells. set_solver.
Qed.

Lemma avoid_mark_each (iter : gset cell → list cell)
    (mark : cell → MinesweeperAI.t → MinesweeperAI.t)
    (r : option (gset cell)) (ai : MinesweeperAI.t) :
  (∀ c a, Forall (λ s, Sentence.cells s ## MinesweeperAI.mines a)
                 (MinesweeperAI.knowledge a) →
          Forall (λ s, Sentence.cells s ## MinesweeperAI.mines (mark c a))
                 (MinesweeperAI.knowledge (mark c a))) →
  Forall (λ s, Sentence.cells s ## MinesweeperAI.mines ai)
         (MinesweeperAI.knowledge ai) →
  Forall (λ s, Sentence.cells s
               ## MinesweeperAI.mines (MinesweeperAI.mark_each iter mark r ai))
         (MinesweeperAI.knowledge (MinesweeperAI.mark_each iter mark r ai)).
Proof.
  intros Hmark. destruct r as [X |]; simpl; [| done].
  revert ai. induction (iter X) as [| c l IH]; intros ai Hai; simpl; [done |].
  by apply IH, Hmark.
Qed.

Lemma avoid_extract_at (iter : gset cell → list cell)
    (ai : MinesweeperAI.t) (i : nat) :
  Forall (λ s, Sentence.cells s ## MinesweeperAI.mines ai)
         (MinesweeperAI.knowledge ai) →
  Forall (λ s, Sentence.cells s
               ## MinesweeperAI.mines (MinesweeperAI.extract_at iter ai i))
         (MinesweeperAI.knowledge (MinesweeperAI.extract_at iter ai i)).
Proof.
  intros Hai. unfold MinesweeperAI.extract_at.
  destruct (MinesweeperAI.knowledge ai !! i) as [s |]; [| done]. cbv zeta.
  set (ai1 := if truthy (Sentence.known_mines s) then _ else ai).
  assert (Forall (λ s, Sentence.cells s ## MinesweeperAI.mines ai1)
                 (MinesweeperAI.knowledge ai1)) as Hai1.
  { subst ai1. destruct (truthy (Sentence.known_mines s)); [| done].
    apply avoid_mark_each; [apply avoid_mark_mine | done]. }
  destruct (MinesweeperAI.knowledge ai1 !! i) as [s' |]; [| done].
  destruct (truthy (Sentence.known_safes s')); [| done].
  apply avoid_mark_each; [apply avoid_mark_safe | done].
Qed.

Lemma avoid_extract_pass (iter : gset cell → list cell)
    (ai : MinesweeperAI.t) :
  Forall (λ s, Sentence.cells s ## MinesweeperAI.mines ai)
         (MinesweeperAI.knowledge ai) →
  Forall (λ s, Sentence.cells s
               ## MinesweeperAI.mines (MinesweeperAI.extract_pass iter ai))
         (MinesweeperAI.knowledge (MinesweeperAI.extract_pass iter ai)).
Proof.
  unfold MinesweeperAI.extract_pass.
  generalize (seq 0 (length (MinesweeperAI.knowledge ai))). intros l.
  revert ai. induction l as [| i l IH]; intros ai Hai; simpl; [done |].
  by apply IH, avoid_extract_at.
Qed.

Lemma avoid_derive_pass (M : gset cell) (k0 : list Sentence.t) :
  Forall (λ s, Sentence.cells s ## M) k0 →
  Forall (λ s, Sentence.cells s ## M) (MinesweeperAI.derive_pass k0).
Proof.
  unfold MinesweeperAI.derive_pass. intros Hk0.
  assert (∀ i sn k, Sentence.cells i ## M →
                    Forall (λ s, Sentence.cells s ## M) k →
                    Forall (λ s, Sentence.cells s ## M)
                           (MinesweeperAI.derive_inner i sn k)) as Hinner.
  { intros i sn. unfold MinesweeperAI.derive_inner.
    induction sn as [| j sn IH]; intros k Hi Hk; simpl; [done |].
    apply IH; [done |]. repeat case_bool_decide; try done.
    apply Forall_app. split; [done |]. apply Forall_singleton. simpl.
    set_solver. }
  assert (∀ l k, Forall (λ s, Sentence.cells s ## M) l →
                 Forall (λ s, Sentence.cells s ## M) k →
                 Forall (λ s, Sentence.cells s ## M)
                        (foldl (λ k i, MinesweeperAI.derive_inner i k k) k l))
    as Hgen.
  { induction l as [| i l IH]; intros k Hl Hk; simpl; [done |].
    apply Forall_cons in Hl as [Hi Hl]. apply IH; [done |]. by apply Hinner. }
  by apply Hgen.
Qed.

Lemma avoid_add_knowledge (iter : gset cell → list cell)
    (dedup : list Sentence.t → list Sentence.t)
    (c : cell) (n : Z) (ai : MinesweeperAI.t) :
  dedup_ok dedup →
  Forall (λ s, Sentence.cells s ## MinesweeperAI.mines ai)
         (MinesweeperAI.knowledge ai) →
  Forall (λ s, Sentence.cells s
               ## MinesweeperAI.mines
                    (MinesweeperAI.add_knowledge iter dedup c n ai))
         (MinesweeperAI.knowledge
            (MinesweeperAI.add_knowledge iter dedup c n ai)).
Proof.
  intros Hdedup Hai.
  unfold MinesweeperAI.add_knowledge, MinesweeperAI.infer. cbv zeta.
  set (ai1 := MinesweeperAI.MinesweeperAI _ _ _ _ _ _).
  set (ai2 := if bool_decide _ then ai1 else _).
  assert (Forall (λ s, Sentence.cells s ## MinesweeperAI.mines ai2)
                 (MinesweeperAI.knowledge ai2)) as Hai2.
  { subst ai2. case_bool_decide; [done |]. by apply avoid_mark_safe. }
  set (ai3 := MinesweeperAI.set_knowledge (_ ++ _) ai2).
  assert (Forall (λ s, Sentence.cells s ## MinesweeperAI.mines ai3)
                 (MinesweeperAI.knowledge ai3)) as Hai3.
  { subst ai3. simpl. apply Forall_app. split; [done |].
    apply Forall_singleton. rewrite neighbors_eq_spec.
    unfold neighbors_spec. simpl. intros p Hp Hm.
    apply elem_of_filter in Hp as [_ Hp]. set_solver. }
  pose proof (avoid_extract_pass iter ai3 Hai3) as Hai4.
  simpl. apply Forall_forall. intros s Hs.
  apply (proj1 (dedup_elem dedup Hdedup _ s)) in Hs.
  pose proof (avoid_derive_pass _ _ Hai4) as Hk.
  rewrite Forall_forall in Hk. by apply Hk.
Qed.

(** After any sequence of [add_knowledge] calls, no retained sentence
    has a cell in [mines]. *)
Lemma retained_cells_avoid_mines (iter : gset cell → list cell)
    (dedup : list Sentence.t → list Sentence.t)
    (h w : Z) (obs : list (cell * Z)) :
  dedup_ok dedup →
  Forall (λ s, Sentence.cells s
               ## MinesweeperAI.mines
                    (observe_all iter dedup obs (MinesweeperAI.init h w)))
         (MinesweeperAI.knowledge
            (observe_all iter dedup obs (MinesweeperAI.init h w))).
Proof.
  intros Hdedup. unfold observe_all.
  assert (Forall (λ s, Sentence.cells s
                       ## MinesweeperAI.mines (MinesweeperAI.init h w))
                 (MinesweeperAI.knowledge (MinesweeperAI.init h w))) as Hinit
    by constructor.
  revert Hinit. generalize (MinesweeperAI.init h w).
  induction obs as [| [c n] obs IH]; intros ai Hai; simpl; [done |].
  by apply IH, avoid_add_knowledge.
Qed.

(** ** The runtime parameters: instances, and what does not depend on them *)

Lemma iter_elements_ok : iter_ok iter_elements.
Proof.
  split; unfold iter_elements.
  - intros X c. apply elem_of_elements.
  - intros X. apply NoDup_elements.
Qed.

Lemma dedup_first_ok : dedup_ok dedup_first.
Proof.
  split; unfold dedup_first.
  - intros l s. apply elem_of_remove_dups.
  - intros l. apply NoDup_remove_dups.
Qed.

Lemma randbelow_zero_ok : randbelow_ok randbelow_zero.
Proof. intros n Hn. exact Hn. Qed.

Lemma sentence_mark_mine_comm (c1 c2 : cell) (s : Sentence.t) :
  Sentence.mark_mine c1 (Sentence.mark_mine c2 s)
  = Sentence.mark_mine c2 (Sentence.mark_mine c1 s).
Proof.
  destruct (decide (c1 = c2)) as [-> | Hne]; [done |].
  unfold Sentence.mark_mine.
  destruct (decide (c1 ∈ Sentence.cells s)) as [H1 | H1];
    destruct (decide (c2 ∈ Sentence.cells s)) as [H2 | H2];
    rewrite ?(bool_decide_eq_true_2 _ H1), ?(bool_decide_eq_false_2 _ H1),
            ?(bool_decide_eq_true_2 _ H2), ?(bool_decide_eq_false_2 _ H2);
    simpl;
    rewrite ?(bool_decide_eq_true_2 _ H1), ?(bool_decide_eq_false_2 _ H1),
            ?(bool_decide_eq_true_2 _ H2), ?(bool_decide_eq_false_2 _ H2);
    try done.
  - rewrite !bool_decide_eq_true_2 by set_solver.
    f_equal; set_solver.
  - by rewrite bool_decide_eq_false_2 by set_solver.
  - by rewrite bool_decide_eq_false_2 by set_solver.
Qed.

Lemma sentence_mark_safe_comm (c1 c2 : cell) (s : Sentence.t) :
  Sentence.mark_safe c1 (Sentence.mark_safe c2 s)
  = Sentence.mark_safe c2 (Sentence.mark_safe c1 s).
Proof.
  destruct (decide (c1 = c2)) as [-> | Hne]; [done |].
  unfold Sentence.mark_safe.
  destruct (decide (c1 ∈ Sentence.cells s)) as [H1 | H1];
    destruct (decide (c2 ∈ Sentence.cells s)) as [H2 | H2];
    rewrite ?(bool_decide_eq_true_2 _ H1), ?(bool_decide_eq_false_2 _ H1),
            ?(bool_decide_eq_true_2 _ H2), ?(bool_decide_eq_false_2 _ H2);
    simpl;
    rewrite ?(bool_decide_eq_true_2 _ H1), ?(bool_decide_eq_false_2 _ H1),
            ?(bool_decide_eq_true_2 _ H2), ?(bool_decide_eq_false_2 _ H2);
    try done.
  - rewrite !bool_decide_eq_true_2 by set_solver.
    f_equal; set_solver.
  - by rewrite bool_decide_eq_false_2 by set_solver.
  - by rewrite bool_decide_eq_false_2 by set_solver.
Qed.

Lemma engine_mark_mine_comm (c1 c2 : cell) (ai : MinesweeperAI.t) :
  MinesweeperAI.mark_mine c1 (MinesweeperAI.mark_mine c2 ai)
  = MinesweeperAI.mark_mine c2 (MinesweeperAI.mark_mine c1 ai).
Proof.
  unfold MinesweeperAI.mark_mine; simpl. f_equal; [set_solver |].
  rewrite <- !list_fmap_compose. apply list_fmap_ext.
  intros _ s _. apply sentence_mark_mine_comm.
Qed.

Lemma engine_mark_safe_comm (c1 c2 : cell) (ai : MinesweeperAI.t) :
  MinesweeperAI.mark_safe c1 (MinesweeperAI.mark_safe c2 ai)
  = MinesweeperAI.mark_safe c2 (MinesweeperAI.mark_safe c1 ai).
Proof.
  unfold MinesweeperAI.mark_safe; simpl. f_equal; [set_solver |].
  rewrite <- !list_fmap_compose. apply list_fmap_ext.
  intros _ s _. apply sentence_mark_safe_comm.
Qed.

(** Marking the cells of a list one by one: the order does not matter. *)
Lemma foldl_mark_permutation
    (mark : cell → MinesweeperAI.t → MinesweeperAI.t) (l1 l2 : list cell) :
  (∀ c1 c2 a, mark c1 (mark c2 a) = mark c2 (mark c1 a)) →
  l1 ≡ₚ l2 →
  ∀ ai, foldl (λ a c, mark c a) ai l1 = foldl (λ a c, mark c a) ai l2.
Proof.
  intros Hcomm Hperm.
  induction Hperm as [| c l1 l2 _ IH | c1 c2 l | l1 l2 l3 _ IH1 _ IH2];
    intros ai; simpl.
  - done.
  - apply IH.
  - by rewrite Hcomm.
  - by rewrite IH1.
Qed.

Section IterIndependence.
Variable iter : gset cell → list cell.
Hypothesis iter_good : iter_ok iter.

Lemma iter_permutation (X : gset cell) : iter X ≡ₚ iter_elements X.
Proof.
  apply NoDup_Permutation.
  - apply (iter_nodup _ iter_good).
  - apply (iter_nodup _ iter_elements_ok).
  - intros c. rewrite (iter_elem _ iter_good).
    symmetry. apply (iter_elem _ iter_elements_ok).
Qed.

Lemma mark_each_mine_any_order (r : option (gset cell))
    (ai : MinesweeperAI.t) :
  MinesweeperAI.mark_each iter MinesweeperAI.mark_mine r ai
  = MinesweeperAI.mark_each iter_elements MinesweeperAI.mark_mine r ai.
Proof.
  destruct r as [X |]; simpl; [| done].
  apply foldl_mark_permutation;
    [apply engine_mark_mine_comm | apply iter_permutation].
Qed.

Lemma mark_each_safe_any_order (r : option (gset cell))
    (ai : MinesweeperAI.t) :
  MinesweeperAI.mark_each iter MinesweeperAI.mark_safe r ai
  = MinesweeperAI.mark_each iter_elements MinesweeperAI.mark_safe r ai.
Proof.
  destruct r as [X |]; simpl; [| done].
  apply foldl_mark_permutation;
    [apply engine_mark_safe_comm | apply iter_permutation].
Qed.

Lemma extract_at_any_order (ai : MinesweeperAI.t) (i : nat) :
  MinesweeperAI.extract_at iter ai i
  = MinesweeperAI.extract_at iter_elements ai i.
Proof.
  unfold MinesweeperAI.extract_at.
  destruct (MinesweeperAI.knowledge ai !! i) as [s |]; [| done].
  cbv zeta. rewrite mark_each_mine_any_order.
  destruct (MinesweeperAI.knowledge _ !! i) as [s' |]; [| done].
  by rewrite mark_each_safe_any_order.
Qed.

Lemma extract_pass_any_order (ai : MinesweeperAI.t) :
  MinesweeperAI.extract_pass iter ai
  = MinesweeperAI.extract_pass iter_elements ai.
Proof.
  unfold MinesweeperAI.extract_pass.
  generalize (seq 0 (length (MinesweeperAI.knowledge ai))). intros l.
  revert ai. induction l as [| i l IH]; intros ai; simpl; [done |].
  by rewrite extract_at_any_order, IH.
Qed.

(** The inference of one call does not depend on how the runtime walks
    through sets of cells. *)
Lemma infer_any_order (c : cell) (n : Z) (ai : MinesweeperAI.t) :
  MinesweeperAI.infer iter c n ai = MinesweeperAI.infer iter_elements c n ai.
Proof.
  unfold MinesweeperAI.infer. cbv zeta.
  by rewrite extract_pass_any_order.
Qed.
End IterIndependence.

Section DedupShape.
Variable dedup : list Sentence.t → list Sentence.t.
Hypothesis dedup_good : dedup_ok dedup.

Lemma dedup_permutation (l : list Sentence.t) : NoDup l → dedup l ≡ₚ l.
Proof.
  intros Hl. apply NoDup_Permutation; [| done |].
  - apply (dedup_nodup _ dedup_good).
  - intros s. apply (dedup_elem _ dedup_good).
Qed.

Lemma dedup_one (s : Sentence.t) : dedup [s] = [s].
Proof.
  apply Permutation_singleton_r, dedup_permutation, NoDup_singleton.
Qed.

Lemma dedup_two (s1 s2 : Sentence.t) :
  s1 ≠ s2 → dedup [s1; s2] = [s1; s2] ∨ dedup [s1; s2] = [s2; s1].
Proof.
  intros Hne.
  assert (NoDup [s1; s2]) as Hnd.
  { apply NoDup_cons. split; [| apply NoDup_singleton].
    by intros ->%list_elem_of_singleton. }
  pose proof (dedup_permutation _ Hnd) as Hperm.
  pose proof (Permutation_length Hperm) as Hlen.
  destruct (dedup [s1; s2]) as [| a [| b [| ? ?]]]; try done.
  assert (a ∈ [s1; s2]) as Ha by (rewrite <- Hperm; apply list_elem_of_here).
  assert (b ∈ [s1; s2]) as Hb
    by (rewrite <- Hperm; apply list_elem_of_further, list_elem_of_here).
  assert (NoDup [a; b]) as Hab by by rewrite Hperm.
  apply NoDup_cons in Hab as [Hab _].
  rewrite list_elem_of_singleton in Hab.
  rewrite !elem_of_cons, elem_of_nil in Ha, Hb.
  destruct Ha as [-> | [-> | []]], Hb as [-> | [-> | []]]; tauto.
Qed.

(** One call of [add_knowledge], with the inference evaluated. *)
Lemma add_knowledge_eval (iter : gset cell → list cell)
    (c : cell) (n : Z) (ai : MinesweeperAI.t) :
  iter_ok iter →
  MinesweeperAI.add_knowledge iter dedup c n ai
  = MinesweeperAI.set_knowledge
      (dedup (MinesweeperAI.knowledge
                (MinesweeperAI.infer iter_elements c n ai)))
      (MinesweeperAI.infer iter_elements c n ai).
Proof.
  intros Hiter. unfold MinesweeperAI.add_knowledge. cbv zeta.
  by rewrite (infer_any_order iter Hiter).
Qed.
End DedupShape.

(** ** Runs on the example boards *)

(** Decidable facts about a closed run are settled by evaluation. *)
Ltac by_evaluation :=
  match goal with
  | |- ?P => apply (bool_decide_unpack P); vm_compute; exact I
  end.

Lemma obs_row_oracle : Forall (oracle_obs board_row 1 4) obs_row.
Proof.
  unfold obs_row.
  repeat (apply Forall_cons_2; [by vm_compute |]). apply Forall_nil_2.
Qed.

Lemma obs_corners_oracle : Forall (oracle_obs board_corners 2 3) obs_corners.
Proof.
  unfold obs_corners.
  repeat (apply Forall_cons_2; [by vm_compute |]). apply Forall_nil_2.
Qed.

Lemma ops_corners_agree : Forall (op_agrees board_corners 2 3) ops_corners.
Proof.
  unfold ops_corners.
  repeat (apply Forall_cons_2; [by vm_compute |]). apply Forall_nil_2.
Qed.

Lemma knowledge_set_knowledge (k : list Sentence.t) (ai : MinesweeperAI.t) :
  MinesweeperAI.knowledge (MinesweeperAI.set_knowledge k ai) = k.
Proof. reflexivity. Qed.

Lemma mines_set_knowledge (k : list Sentence.t) (ai : MinesweeperAI.t) :
  MinesweeperAI.mines (MinesweeperAI.set_knowledge k ai)
  = MinesweeperAI.mines ai.
Proof. reflexivity. Qed.

Lemma safes_set_knowledge (k : list Sentence.t) (ai : MinesweeperAI.t) :
  MinesweeperAI.safes (MinesweeperAI.set_knowledge k ai)
  = MinesweeperAI.safes ai.
Proof. reflexivity. Qed.

(** C1 (failing input): on the row board, after the oracle's
    observations [((0,0), 0)] and [((0,2), 1)], whatever the runtime's
    orders, the engine retains the sentence [{(0,1), (0,3)} = 1] although
    [(0,1)] is in [safes]: [neighbors] leaves out a safe cell only if it
    was also played. *)
Theorem neighbors_keeps_known_safe_cell (iter : gset cell → list cell)
    (dedup : list Sentence.t → list Sentence.t) :
  iter_ok iter → dedup_ok dedup →
  let ai := observe_all iter dedup obs_row (MinesweeperAI.init 1 4) in
  Forall (oracle_obs board_row 1 4) obs_row
  ∧ Sentence.Sentence {[(0, 1); (0, 3)]} 1 ∈ MinesweeperAI.knowledge ai
  ∧ (0, 1) ∈ Sentence.cells (Sentence.Sentence {[(0, 1); (0, 3)]} 1)
  ∧ (0, 1) ∈ MinesweeperAI.safes ai.
Proof.
  intros Hiter Hdedup. cbv zeta. split; [apply obs_row_oracle |].
  unfold observe_all, obs_row. cbn [foldl fst snd].
  rewrite (add_knowledge_eval dedup iter (0, 0) 0 _ Hiter).
  assert (MinesweeperAI.knowledge
            (MinesweeperAI.infer iter_elements (0, 0) 0 (MinesweeperAI.init 1 4))
          = [Sentence.Sentence ∅ 0]) as -> by (vm_compute; reflexivity).
  rewrite (dedup_one dedup Hdedup).
  rewrite (add_knowledge_eval dedup iter (0, 2) 1 _ Hiter).
  rewrite knowledge_set_knowledge, safes_set_knowledge.
  split; [| split]; [| by_evaluation | by_evaluation].
  apply (dedup_elem dedup Hdedup). by_evaluation.
Qed.

Lemma neighbors_keeps_known_safe_cell_witness :
  iter_ok iter_elements ∧ dedup_ok dedup_first
  ∧ (0, 1) ∈ MinesweeperAI.safes
               (observe_all iter_elements dedup_first obs_row
                  (MinesweeperAI.init 1 4)).
Proof.
  split; [apply iter_elements_ok |]. split; [apply dedup_first_ok |].
  apply (neighbors_keeps_known_safe_cell iter_elements dedup_first
           iter_elements_ok dedup_first_ok).
Defined.

(** C2 (failing input): on the corners board, the third observation
    puts [A = {(1,0), (1,1), (1,2)} = 2] next to [B = {(1,0), (1,1)} = 1].
    When the call returns, whatever the runtime's orders, the derived
    sentence [{(1,2)} = 1] is in [knowledge], but [(1,2)] is not in
    [mines]: the extraction pass has run before the derivation pass and is
    not run again. *)
Theorem derived_mine_is_not_extracted (iter : gset cell → list cell)
    (dedup : list Sentence.t → list Sentence.t) :
  iter_ok iter → dedup_ok dedup →
  let ai := observe_all iter dedup obs_corners (MinesweeperAI.init 2 3) in
  Forall (oracle_obs board_corners 2 3) obs_corners
  ∧ Sentence.Sentence {[(1, 0); (1, 1); (1, 2)]} 2 ∈ MinesweeperAI.knowledge ai
  ∧ Sentence.Sentence {[(1, 0); (1, 1)]} 1 ∈ MinesweeperAI.knowledge ai
  ∧ Sentence.Sentence {[(1, 2)]} 1 ∈ MinesweeperAI.knowledge ai
  ∧ (1, 2) ∉ MinesweeperAI.mines ai.
Proof.
  intros Hiter Hdedup. cbv zeta. split; [apply obs_corners_oracle |].
  unfold observe_all, obs_corners. cbn [foldl fst snd].
  rewrite (add_knowledge_eval dedup iter (0, 0) 1 _ Hiter).
  assert (MinesweeperAI.knowledge
            (MinesweeperAI.infer iter_elements (0, 0) 1 (MinesweeperAI.init 2 3))
          = [Sentence.Sentence {[(0, 1); (1, 0); (1, 1)]} 1]) as ->
    by (vm_compute; reflexivity).
  rewrite (dedup_one dedup Hdedup).
  rewrite (add_knowledge_eval dedup iter (0, 2) 1 _ Hiter).
  match goal with
  | |- context [dedup (MinesweeperAI.knowledge ?r)] =>
      assert (MinesweeperAI.knowledge r
              = [Sentence.Sentence {[(0, 1); (1, 0); (1, 1)]} 1;
                 Sentence.Sentence {[(0, 1); (1, 1); (1, 2)]} 1]) as ->
        by (vm_compute; reflexivity)
  end.
  rewrite (add_knowledge_eval dedup iter (0, 1) 2 _ Hiter).
  rewrite knowledge_set_knowledge, mines_set_knowledge.
  rewrite !(dedup_elem dedup Hdedup).
  destruct (dedup_two dedup Hdedup
              (Sentence.Sentence {[(0, 1); (1, 0); (1, 1)]} 1)
              (Sentence.Sentence {[(0, 1); (1, 1); (1, 2)]} 1)) as [-> | ->].
  - by_evaluation.
  - repeat split; by_evaluation.
  - repeat split; by_evaluation.
Qed.

Lemma derived_mine_is_not_extracted_witness :
  iter_ok iter_elements ∧ dedup_ok dedup_first
  ∧ (1, 2) ∉ MinesweeperAI.mines
               (observe_all iter_elements dedup_first obs_corners
                  (MinesweeperAI.init 2 3)).
Proof.
  split; [apply iter_elements_ok |]. split; [apply dedup_first_ok |].
  apply (derived_mine_is_not_extracted iter_elements dedup_first
           iter_elements_ok dedup_first_ok).
Defined.

(** Outside the contract of [add_knowledge] the bound on counts is not
    kept: a count the oracle cannot report is stored as it comes.  On the
    2 x 2 board, after the single observation [((0,0), 4)], whatever the
    runtime's orders, the engine retains a sentence of three cells with
    count 4. *)
Lemma count_exceeds_cells_off_contract :
  let s := Sentence.Sentence {[(0, 1); (1, 0); (1, 1)]} 4 in
  ¬ (0 <= Sentence.count s <= Z.of_nat (size (Sentence.cells s)))
  ∧ ∀ iter dedup, iter_ok iter → dedup_ok dedup →
      s ∈ MinesweeperAI.knowledge
            (observe_all iter dedup [((0, 0), 4)] (MinesweeperAI.init 2 2)).
Proof.
  cbv zeta. split; [by_evaluation |].
  intros iter dedup Hiter Hdedup.
  unfold observe_all. cbn [foldl fst snd].
  rewrite (add_knowledge_eval dedup iter (0, 0) 4 _ Hiter).
  rewrite knowledge_set_knowledge.
  apply (dedup_elem dedup Hdedup). by_evaluation.
Qed.

Lemma oracle_runs_keep_counts_in_range_witness :
  Forall (oracle_obs board_corners 2 3) obs_corners
  ∧ Sentence.Sentence {[(1, 2)]} 1
      ∈ MinesweeperAI.knowledge
          (observe_all iter_elements dedup_first obs_corners
             (MinesweeperAI.init 2 3))
  ∧ 0 <= Sentence.count (Sentence.Sentence {[(1, 2)]} 1)
      <= Z.of_nat (size (Sentence.cells (Sentence.Sentence {[(1, 2)]} 1))).
Proof.
  split; [apply obs_corners_oracle |]. split; [by_evaluation |].
  apply (oracle_runs_keep_counts_in_range iter_elements dedup_first
           board_corners 2 3 obs_corners (Sentence.Sentence {[(1, 2)]} 1)
           iter_elements_ok dedup_first_ok obs_corners_oracle).
  by_evaluation.
Defined.

(** C4 (counterexample): marking is unconditional.  After
    [mark_mine (0,0)] and then [mark_safe (0,0)], whatever the runtime
    parameters, the cell is in [mines] and in [safes]. *)
Lemma mark_mine_then_mark_safe_overlap :
  (∀ iter dedup randbelow,
     (0, 0) ∈ MinesweeperAI.mines
                (run iter dedup randbelow [MarkMine (0, 0); MarkSafe (0, 0)]
                   (MinesweeperAI.init 2 2)))
  ∧ (∀ iter dedup randbelow,
       (0, 0) ∈ MinesweeperAI.safes
                  (run iter dedup randbelow [MarkMine (0, 0); MarkSafe (0, 0)]
                     (MinesweeperAI.init 2 2))).
Proof. split; intros iter dedup randbelow; by_evaluation. Qed.

Lemma agreeing_runs_keep_mines_safes_disjoint_witness :
  Forall (op_agrees board_corners 2 3) ops_corners
  ∧ MinesweeperAI.mines
      (run iter_elements dedup_first randbelow_zero (take 6 ops_corners)
         (MinesweeperAI.init 2 3))
    ## MinesweeperAI.safes
         (run iter_elements dedup_first randbelow_zero (take 6 ops_corners)
            (MinesweeperAI.init 2 3)).
Proof.
  split; [apply ops_corners_agree |].
  apply (agreeing_runs_keep_mines_safes_disjoint iter_elements dedup_first
           randbelow_zero board_corners 2 3 ops_corners 6
           iter_elements_ok dedup_first_ok ops_corners_agree).
Defined.

Lemma make_safe_move_spec_witness :
  iter_ok iter_elements
  ∧ (MinesweeperAI.make_safe_move iter_elements
       (observe_all iter_elements dedup_first [((0, 0), 0)]
          (MinesweeperAI.init 2 2))).2
    = observe_all iter_elements dedup_first [((0, 0), 0)]
        (MinesweeperAI.init 2 2)
  ∧ ∀ c, (MinesweeperAI.make_safe_move iter_elements
            (observe_all iter_elements dedup_first [((0, 0), 0)]
               (MinesweeperAI.init 2 2))).1 = Some c →
         c ∈ MinesweeperAI.safes
               (observe_all iter_elements dedup_first [((0, 0), 0)]
                  (MinesweeperAI.init 2 2))
         ∧ (c ∉ MinesweeperAI.moves_made
                  (observe_all iter_elements dedup_first [((0, 0), 0)]
                     (MinesweeperAI.init 2 2))).
Proof.
  split; [apply iter_elements_ok |].
  pose proof (make_safe_move_spec iter_elements
                (observe_all iter_elements dedup_first [((0, 0), 0)]
                   (MinesweeperAI.init 2 2)) iter_elements_ok)
    as (Hsome & _ & Hsame).
  split; [exact Hsame | exact Hsome].
Defined.

Lemma make_random_move_spec_witness :
  randbelow_ok randbelow_zero
  ∧ ∀ c, (MinesweeperAI.make_random_move randbelow_zero
            (MinesweeperAI.init 2 2)).1 = Some c →
         on_board 2 2 c
         ∧ (c ∉ MinesweeperAI.moves_made (MinesweeperAI.init 2 2))
         ∧ (c ∉ MinesweeperAI.mines (MinesweeperAI.init 2 2)).
Proof.
  split; [apply randbelow_zero_ok |].
  pose proof (make_random_move_spec randbelow_zero (MinesweeperAI.init 2 2)
                randbelow_zero_ok) as (Hsome & _ & _).
  exact Hsome.
Defined.

(** * Further properties of the code *)

(** ** Bulk marking *)

Lemma mark_mines_empty (ai : MinesweeperAI.t) : mark_mines ∅ ai = ai.
Proof.
  destruct ai as [h w mv mi sa k]. unfold mark_mines; simpl. f_equal.
  - set_solver.
  - rewrite <- (list_fmap_id k) at 2. apply list_fmap_ext.
    intros _ [X n] _. simpl. f_equal.
    + set_solver.
    + replace (X ∩ ∅) with (∅ : gset cell) by set_solver.
      rewrite size_empty. lia.
Qed.

Lemma mark_safes_empty (ai : MinesweeperAI.t) : mark_safes ∅ ai = ai.
Proof.
  destruct ai as [h w mv mi sa k]. unfold mark_safes; simpl. f_equal.
  - set_solver.
  - rewrite <- (list_fmap_id k) at 2. apply list_fmap_ext.
    intros _ [X n] _. simpl. f_equal. set_solver.
Qed.

Lemma mark_mines_step (c : cell) (X : gset cell) (ai : MinesweeperAI.t) :
  c ∉ X →
  mark_mines X (MinesweeperAI.mark_mine c ai) = mark_mines ({[c]} ∪ X) ai.
Proof.
  intros Hc. unfold mark_mines, MinesweeperAI.mark_mine; simpl. f_equal.
  - set_solver.
  - rewrite <- list_fmap_compose. apply list_fmap_ext.
    intros _ [Y n] _. unfold Sentence.mark_mine; simpl.
    case_bool_decide as Hin; simpl.
    + f_equal; [set_solver |].
      replace (Y ∩ ({[c]} ∪ X)) with ({[c]} ∪ (Y ∖ {[c]}) ∩ X)
        by (apply set_eq; intros p; destruct (decide (p = c)); set_solver).
      rewrite (size_union (C := gset cell) {[c]} ((Y ∖ {[c]}) ∩ X))
        by set_solver.
      rewrite size_singleton. lia.
    + f_equal; [set_solver |].
      replace (Y ∩ ({[c]} ∪ X)) with (Y ∩ X) by set_solver. done.
Qed.

Lemma mark_safes_step (c : cell) (X : gset cell) (ai : MinesweeperAI.t) :
  mark_safes X (MinesweeperAI.mark_safe c ai) = mark_safes ({[c]} ∪ X) ai.
Proof.
  unfold mark_safes, MinesweeperAI.mark_safe; simpl. f_equal.
  - set_solver.
  - rewrite <- list_fmap_compose. apply list_fmap_ext.
    intros _ [Y n] _. unfold Sentence.mark_safe; simpl.
    case_bool_decide as Hin; simpl; f_equal; set_solver.
Qed.

Lemma foldl_mark_mine (l : list cell) (ai : MinesweeperAI.t) :
  NoDup l →
  foldl (λ a c, MinesweeperAI.mark_mine c a) ai l
  = mark_mines (list_to_set l) ai.
Proof.
  intros Hnd. revert ai.
  induction Hnd as [| c l Hc Hnd IH]; intros ai; simpl.
  - by rewrite mark_mines_empty.
  - rewrite IH. apply mark_mines_step. by rewrite elem_of_list_to_set.
Qed.

Lemma foldl_mark_safe (l : list cell) (ai : MinesweeperAI.t) :
  foldl (λ a c, MinesweeperAI.mark_safe c a) ai l
  = mark_safes (list_to_set l) ai.
Proof.
  revert ai. induction l as [| c l IH]; intros ai; simpl.
  - by rewrite mark_safes_empty.
  - rewrite IH. apply mark_safes_step.
Qed.

Lemma iter_to_set (iter : gset cell → list cell) (X : gset cell) :
  iter_ok iter → list_to_set (iter X) = X.
Proof.
  intros Hiter. apply set_eq. intros p.
  rewrite elem_of_list_to_set. apply (iter_elem _ Hiter).
Qed.

(** X1: the loop that marks every cell of a set as a mine (or as safe),
    one cell at a time, has a closed form: the set joins [mines] (or
    [safes]) and every sentence loses the cells of the set, its count
    going down by the number of cells it loses to [mines] and staying as
    it is for [safes]. *)
Theorem mark_each_closed_form (iter : gset cell → list cell)
    (X : gset cell) (ai : MinesweeperAI.t) :
  iter_ok iter →
  MinesweeperAI.mark_each iter MinesweeperAI.mark_mine (Some X) ai
    = mark_mines X ai
  ∧ MinesweeperAI.mark_each iter MinesweeperAI.mark_safe (Some X) ai
    = mark_safes X ai.
Proof.
  intros Hiter. unfold MinesweeperAI.mark_each. split.
  - rewrite foldl_mark_mine by apply (iter_nodup _ Hiter).
    by rewrite iter_to_set.
  - rewrite foldl_mark_safe. by rewrite iter_to_set.
Qed.

Lemma mark_each_closed_form_witness :
  iter_ok iter_elements
  ∧ MinesweeperAI.mark_each iter_elements MinesweeperAI.mark_mine
      (Some {[(0, 1); (1, 1)]})
      (MinesweeperAI.infer iter_elements (0, 0) 2 (MinesweeperAI.init 2 2))
    = mark_mines {[(0, 1); (1, 1)]}
        (MinesweeperAI.infer iter_elements (0, 0) 2 (MinesweeperAI.init 2 2)).
Proof.
  split; [apply iter_elements_ok |].
  apply (mark_each_closed_form iter_elements {[(0, 1); (1, 1)]}
           (MinesweeperAI.infer iter_elements (0, 0) 2
              (MinesweeperAI.init 2 2)) iter_elements_ok).
Defined.

(** ** One iteration of the extraction loop *)

Lemma mark_each_mine_eq (iter : gset cell → list cell)
    (X : gset cell) (ai : MinesweeperAI.t) :
  iter_ok iter →
  MinesweeperAI.mark_each iter MinesweeperAI.mark_mine (Some X) ai
  = mark_mines X ai.
Proof.
  intros Hiter. unfold MinesweeperAI.mark_each.
  rewrite foldl_mark_mine by apply (iter_nodup _ Hiter).
  by rewrite iter_to_set.
Qed.

Lemma mark_each_safe_eq (iter : gset cell → list cell)
    (X : gset cell) (ai : MinesweeperAI.t) :
  iter_ok iter →
  MinesweeperAI.mark_each iter MinesweeperAI.mark_safe (Some X) ai
  = mark_safes X ai.
Proof.
  intros Hiter. unfold MinesweeperAI.mark_each.
  rewrite foldl_mark_safe. by rewrite iter_to_set.
Qed.

Lemma size_zero_empty (X : gset cell) : size X = 0%nat → X = ∅.
Proof. intros H. apply leibniz_equiv. by apply size_empty_inv. Qed.

Lemma known_mines_some (s : Sentence.t) :
  Z.of_nat (size (Sentence.cells s)) = Sentence.count s →
  Sentence.count s ≠ 0 →
  Sentence.known_mines s = Some (Sentence.cells s).
Proof.
  intros Hsz Hz. unfold Sentence.known_mines.
  by rewrite (bool_decide_eq_true_2 _ Hsz), (bool_decide_eq_false_2 _ Hz).
Qed.

Lemma known_mines_none (s : Sentence.t) :
  ¬ (Z.of_nat (size (Sentence.cells s)) = Sentence.count s
     ∧ Sentence.count s ≠ 0) →
  Sentence.known_mines s = None.
Proof.
  intros Hn. unfold Sentence.known_mines.
  destruct (decide (Z.of_nat (size (Sentence.cells s)) = Sentence.count s))
    as [Hsz | Hsz].
  - assert (Sentence.count s = 0) as Hz by lia.
    by rewrite (bool_decide_eq_true_2 _ Hsz), (bool_decide_eq_true_2 _ Hz).
  - by rewrite (bool_decide_eq_false_2 _ Hsz).
Qed.

Lemma known_safes_some (s : Sentence.t) :
  Sentence.count s = 0 → Sentence.known_safes s = Some (Sentence.cells s).
Proof.
  intros Hz. unfold Sentence.known_safes.
  by rewrite (bool_decide_eq_true_2 _ Hz).
Qed.

Lemma known_safes_none (s : Sentence.t) :
  Sentence.count s ≠ 0 → Sentence.known_safes s = None.
Proof.
  intros Hz. unfold Sentence.known_safes.
  by rewrite (bool_decide_eq_false_2 _ Hz).
Qed.

Lemma truthy_nonempty (X : gset cell) : X ≠ ∅ → truthy (Some X) = true.
Proof. intros HX. unfold truthy. by rewrite (bool_decide_eq_false_2 _ HX). Qed.

Lemma truthy_empty : truthy (Some ∅) = false.
Proof. unfold truthy. by rewrite bool_decide_eq_true_2. Qed.

Lemma size_nonzero_nonempty (X : gset cell) : size X ≠ 0%nat → X ≠ ∅.
Proof. intros Hs ->. by rewrite size_empty in Hs. Qed.

Lemma extract_at_eq (iter : gset cell → list cell)
    (ai : MinesweeperAI.t) (i : nat) :
  iter_ok iter →
  MinesweeperAI.extract_at iter ai i
  = match MinesweeperAI.knowledge ai !! i with
    | None => ai
    | Some s =>
        if bool_decide (Z.of_nat (size (Sentence.cells s)) = Sentence.count s
                        ∧ Sentence.count s ≠ 0)
        then mark_mines (Sentence.cells s) ai
        else if bool_decide (Sentence.count s = 0)
             then mark_safes (Sentence.cells s) ai
             else ai
    end.
Proof.
  intros Hiter. unfold MinesweeperAI.extract_at.
  destruct (MinesweeperAI.knowledge ai !! i) as [s |] eqn:Hs; [| done].
  cbv zeta.
  destruct (decide (Z.of_nat (size (Sentence.cells s)) = Sentence.count s
                    ∧ Sentence.count s ≠ 0)) as [[Hsz Hnz] | Hn].
  - (* every cell a mine *)
    rewrite (bool_decide_eq_true_2 _ (conj Hsz Hnz)).
    rewrite (known_mines_some s Hsz Hnz).
    rewrite truthy_nonempty by (apply size_nonzero_nonempty; lia).
    rewrite (mark_each_mine_eq iter _ ai Hiter).
    assert (MinesweeperAI.knowledge (mark_mines (Sentence.cells s) ai) !! i
            = Some (Sentence.Sentence ∅ 0)) as ->.
    { unfold mark_mines. cbn [MinesweeperAI.knowledge].
      rewrite list_lookup_fmap, Hs. cbn [fmap option_fmap option_map].
      f_equal. f_equal; [set_solver |].
      replace (Sentence.cells s ∩ Sentence.cells s) with (Sentence.cells s)
        by set_solver.
      lia. }
    rewrite (known_safes_some (Sentence.Sentence ∅ 0)) by done.
    cbn [Sentence.cells]. by rewrite truthy_empty.
  - rewrite (bool_decide_eq_false_2 _ Hn).
    rewrite (known_mines_none s Hn). cbn [truthy]. rewrite Hs.
    destruct (decide (Sentence.count s = 0)) as [Hz | Hz].
    + (* count 0 *)
      rewrite (bool_decide_eq_true_2 _ Hz), (known_safes_some s Hz).
      destruct (decide (Sentence.cells s = ∅)) as [He | He].
      * rewrite He, truthy_empty. by rewrite mark_safes_empty.
      * rewrite (truthy_nonempty _ He). by apply mark_each_safe_eq.
    + (* nothing to extract *)
      rewrite (bool_decide_eq_false_2 _ Hz), (known_safes_none s Hz). done.
Qed.

(** X2: one iteration of the extraction loop does at most one bulk
    marking.  If the sentence it looks at has as many cells as its count
    and the count is not 0, all its cells become mines, and the second
    [if] then finds the sentence empty and does nothing; otherwise, if its
    count is 0, all its cells become safe; otherwise nothing changes. *)
Theorem extract_at_cases (iter : gset cell → list cell)
    (ai : MinesweeperAI.t) (i : nat) :
  iter_ok iter →
  MinesweeperAI.extract_at iter ai i
  = match MinesweeperAI.knowledge ai !! i with
    | None => ai
    | Some s =>
        if bool_decide (Z.of_nat (size (Sentence.cells s)) = Sentence.count s
                        ∧ Sentence.count s ≠ 0)
        then mark_mines (Sentence.cells s) ai
        else if bool_decide (Sentence.count s = 0)
             then mark_safes (Sentence.cells s) ai
             else ai
    end.
Proof. apply extract_at_eq. Qed.

Lemma extract_at_cases_witness :
  iter_ok iter_elements
  ∧ MinesweeperAI.extract_at iter_elements
      (MinesweeperAI.MinesweeperAI 2 2 ∅ ∅ ∅
         [Sentence.Sentence {[(0, 1); (1, 1)]} 2;
          Sentence.Sentence {[(0, 1); (1, 0)]} 1]) 0
    = mark_mines {[(0, 1); (1, 1)]}
        (MinesweeperAI.MinesweeperAI 2 2 ∅ ∅ ∅
           [Sentence.Sentence {[(0, 1); (1, 1)]} 2;
            Sentence.Sentence {[(0, 1); (1, 0)]} 1]).
Proof.
  split; [apply iter_elements_ok |].
  rewrite (extract_at_cases iter_elements _ 0 iter_elements_ok).
  reflexivity.
Defined.

(** ** The extraction pass settles what is trivial when it starts *)

Lemma holds_all_mines (board : cell → bool) (s : Sentence.t) :
  holds board s →
  Z.of_nat (size (Sentence.cells s)) = Sentence.count s →
  ∀ p, p ∈ Sentence.cells s → board p = true.
Proof. unfold holds. intros Hs Hsz. apply mines_in_all. congruence. Qed.

Lemma holds_no_mine (board : cell → bool) (s : Sentence.t) :
  holds board s → Sentence.count s = 0 →
  ∀ p, p ∈ Sentence.cells s → board p = false.
Proof. unfold holds. intros Hs Hz. apply mines_in_none. congruence. Qed.

Lemma safes_extract_at_mono (iter : gset cell → list cell)
    (a : MinesweeperAI.t) (j : nat) :
  iter_ok iter →
  MinesweeperAI.safes a ⊆ MinesweeperAI.safes (MinesweeperAI.extract_at iter a j).
Proof.
  intros Hiter. rewrite (extract_at_eq iter a j Hiter).
  destruct (MinesweeperAI.knowledge a !! j) as [sj |]; [| done].
  repeat case_bool_decide; simpl; set_solver.
Qed.

Lemma mines_extract_at_mono (iter : gset cell → list cell)
    (a : MinesweeperAI.t) (j : nat) :
  iter_ok iter →
  MinesweeperAI.mines a ⊆ MinesweeperAI.mines (MinesweeperAI.extract_at iter a j).
Proof.
  intros Hiter. rewrite (extract_at_eq iter a j Hiter).
  destruct (MinesweeperAI.knowledge a !! j) as [sj |]; [| done].
  repeat case_bool_decide; simpl; set_solver.
Qed.

Lemma safes_extract_fold_mono (iter : gset cell → list cell)
    (l : list nat) (a : MinesweeperAI.t) :
  iter_ok iter →
  MinesweeperAI.safes a
  ⊆ MinesweeperAI.safes (foldl (MinesweeperAI.extract_at iter) a l).
Proof.
  intros Hiter. revert a. induction l as [| j l IH]; intros a; simpl; [done |].
  etrans; [by apply (safes_extract_at_mono iter a j) | apply IH].
Qed.

Lemma mines_extract_fold_mono (iter : gset cell → list cell)
    (l : list nat) (a : MinesweeperAI.t) :
  iter_ok iter →
  MinesweeperAI.mines a
  ⊆ MinesweeperAI.mines (foldl (MinesweeperAI.extract_at iter) a l).
Proof.
  intros Hiter. revert a. induction l as [| j l IH]; intros a; simpl; [done |].
  etrans; [by apply (mines_extract_at_mono iter a j) | apply IH].
Qed.

Lemma sound_extract_fold (iter : gset cell → list cell)
    (board : cell → bool) (l : list nat) (a : MinesweeperAI.t) :
  iter_ok iter → sound board a →
  sound board (foldl (MinesweeperAI.extract_at iter) a l).
Proof.
  intros Hiter. revert a. induction l as [| j l IH]; intros a Ha; simpl; [done |].
  by apply IH, sound_extract_at.
Qed.

Section Pending.
Variable iter : gset cell → list cell.
Variable board : cell → bool.
Variable s0 : Sentence.t.
Variable i : nat.
Hypothesis iter_good : iter_ok iter.

(** A sentence with count 0 keeps count 0 while other sentences are
    processed, and the cells it loses go to [safes]. *)
Lemma pending_safe_step (a : MinesweeperAI.t) (j : nat) :
  sound board a →
  (∃ s', MinesweeperAI.knowledge a !! i = Some s'
         ∧ Sentence.count s' = 0
         ∧ Sentence.cells s0 ⊆ Sentence.cells s' ∪ MinesweeperAI.safes a) →
  ∃ s', MinesweeperAI.knowledge (MinesweeperAI.extract_at iter a j) !! i
        = Some s'
        ∧ Sentence.count s' = 0
        ∧ Sentence.cells s0
          ⊆ Sentence.cells s'
            ∪ MinesweeperAI.safes (MinesweeperAI.extract_at iter a j).
Proof.
  intros Ha (s' & Hs' & Hz & Hsub).
  rewrite (extract_at_eq iter a j iter_good).
  destruct (MinesweeperAI.knowledge a !! j) as [sj |] eqn:Hsj; [| by eauto].
  pose proof (sound_lookup board a i s' Ha Hs') as Htrue'.
  pose proof (sound_lookup board a j sj Ha Hsj) as Htruej.
  case_bool_decide as Hm; [| case_bool_decide as Hzj].
  - destruct Hm as [Hsz _].
    pose proof (holds_all_mines board sj Htruej Hsz) as Hall.
    pose proof (holds_no_mine board s' Htrue' Hz) as Hnone.
    assert (Sentence.cells s' ∩ Sentence.cells sj = ∅) as Hdisj.
    { apply set_eq. intros p. split; [| set_solver].
      intros [Hp1 Hp2]%elem_of_intersection.
      apply Hall in Hp2. apply Hnone in Hp1. congruence. }
    eexists. unfold mark_mines. cbn [MinesweeperAI.knowledge MinesweeperAI.safes].
    rewrite list_lookup_fmap, Hs'. split; [reflexivity |].
    cbn [Sentence.cells Sentence.count]. split.
    + rewrite Hdisj, size_empty. lia.
    + set_solver.
  - eexists. unfold mark_safes. cbn [MinesweeperAI.knowledge MinesweeperAI.safes].
    rewrite list_lookup_fmap, Hs'. split; [reflexivity |].
    cbn [Sentence.cells Sentence.count]. split; [done |].
    intros p Hp. apply Hsub in Hp.
    destruct (decide (p ∈ Sentence.cells sj)); set_solver.
  - eauto.
Qed.

Lemma pending_safe_done (a : MinesweeperAI.t) :
  (∃ s', MinesweeperAI.knowledge a !! i = Some s'
         ∧ Sentence.count s' = 0
         ∧ Sentence.cells s0 ⊆ Sentence.cells s' ∪ MinesweeperAI.safes a) →
  Sentence.cells s0
  ⊆ MinesweeperAI.safes (MinesweeperAI.extract_at iter a i).
Proof.
  intros (s' & Hs' & Hz & Hsub).
  rewrite (extract_at_eq iter a i iter_good), Hs'.
  rewrite bool_decide_eq_false_2 by lia.
  rewrite (bool_decide_eq_true_2 _ Hz). simpl. set_solver.
Qed.

Lemma pending_safe_fold (l : list nat) (a : MinesweeperAI.t) :
  sound board a →
  (∃ s', MinesweeperAI.knowledge a !! i = Some s'
         ∧ Sentence.count s' = 0
         ∧ Sentence.cells s0 ⊆ Sentence.cells s' ∪ MinesweeperAI.safes a) →
  ∃ s', MinesweeperAI.knowledge (foldl (MinesweeperAI.extract_at iter) a l) !! i
        = Some s'
        ∧ Sentence.count s' = 0
        ∧ Sentence.cells s0
          ⊆ Sentence.cells s'
            ∪ MinesweeperAI.safes (foldl (MinesweeperAI.extract_at iter) a l).
Proof.
  revert a. induction l as [| j l IH]; intros a Ha Hinv; simpl; [done |].
  apply IH; [by apply sound_extract_at | by apply pending_safe_step].
Qed.

(** A sentence whose cells are all mines stays so while other sentences
    are processed, and the cells it loses go to [mines]. *)
Lemma pending_mine_step (a : MinesweeperAI.t) (j : nat) :
  sound board a →
  (∃ s', MinesweeperAI.knowledge a !! i = Some s'
         ∧ Z.of_nat (size (Sentence.cells s')) = Sentence.count s'
         ∧ Sentence.cells s0 ⊆ Sentence.cells s' ∪ MinesweeperAI.mines a) →
  ∃ s', MinesweeperAI.knowledge (MinesweeperAI.extract_at iter a j) !! i
        = Some s'
        ∧ Z.of_nat (size (Sentence.cells s')) = Sentence.count s'
        ∧ Sentence.cells s0
          ⊆ Sentence.cells s'
            ∪ MinesweeperAI.mines (MinesweeperAI.extract_at iter a j).
Proof.
  intros Ha (s' & Hs' & Hsz & Hsub).
  rewrite (extract_at_eq iter a j iter_good).
  destruct (MinesweeperAI.knowledge a !! j) as [sj |] eqn:Hsj; [| by eauto].
  pose proof (sound_lookup board a i s' Ha Hs') as Htrue'.
  pose proof (sound_lookup board a j sj Ha Hsj) as Htruej.
  case_bool_decide as Hm; [| case_bool_decide as Hzj].
  - eexists. unfold mark_mines. cbn [MinesweeperAI.knowledge MinesweeperAI.mines].
    rewrite list_lookup_fmap, Hs'. split; [reflexivity |].
    cbn [Sentence.cells Sentence.count]. split.
    + rewrite (size_difference_alt (C := gset cell)
                 (Sentence.cells s') (Sentence.cells sj)).
      pose proof (subseteq_size (C := gset cell)
                    (Sentence.cells s' ∩ Sentence.cells sj)
                    (Sentence.cells s') ltac:(set_solver)).
      lia.
    + intros p Hp. apply Hsub in Hp.
      destruct (decide (p ∈ Sentence.cells sj)); set_solver.
  - pose proof (holds_all_mines board s' Htrue' Hsz) as Hall.
    pose proof (holds_no_mine board sj Htruej Hzj) as Hnone.
    assert (Sentence.cells s' ∖ Sentence.cells sj = Sentence.cells s') as Hsame.
    { apply set_eq. intros p. split; [set_solver |].
      intros Hp. apply elem_of_difference. split; [done |].
      intros Hp2. apply Hall in Hp. apply Hnone in Hp2. congruence. }
    eexists. unfold mark_safes. cbn [MinesweeperAI.knowledge MinesweeperAI.mines].
    rewrite list_lookup_fmap, Hs'. split; [reflexivity |].
    cbn [Sentence.cells Sentence.count]. rewrite Hsame. done.
  - eauto.
Qed.

Lemma pending_mine_done (a : MinesweeperAI.t) :
  (∃ s', MinesweeperAI.knowledge a !! i = Some s'
         ∧ Z.of_nat (size (Sentence.cells s')) = Sentence.count s'
         ∧ Sentence.cells s0 ⊆ Sentence.cells s' ∪ MinesweeperAI.mines a) →
  Sentence.cells s0
  ⊆ MinesweeperAI.mines (MinesweeperAI.extract_at iter a i).
Proof.
  intros (s' & Hs' & Hsz & Hsub).
  rewrite (extract_at_eq iter a i iter_good), Hs'.
  destruct (decide (Sentence.count s' = 0)) as [Hz | Hz].
  - rewrite bool_decide_eq_false_2 by lia.
    rewrite (bool_decide_eq_true_2 _ Hz). simpl.
    assert (Sentence.cells s' = ∅) as He by (apply size_zero_empty; lia).
    set_solver.
  - rewrite bool_decide_eq_true_2 by done. simpl. set_solver.
Qed.

Lemma pending_mine_fold (l : list nat) (a : MinesweeperAI.t) :
  sound board a →
  (∃ s', MinesweeperAI.knowledge a !! i = Some s'
         ∧ Z.of_nat (size (Sentence.cells s')) = Sentence.count s'
         ∧ Sentence.cells s0 ⊆ Sentence.cells s' ∪ MinesweeperAI.mines a) →
  ∃ s', MinesweeperAI.knowledge (foldl (MinesweeperAI.extract_at iter) a l) !! i
        = Some s'
        ∧ Z.of_nat (size (Sentence.cells s')) = Sentence.count s'
        ∧ Sentence.cells s0
          ⊆ Sentence.cells s'
            ∪ MinesweeperAI.mines (foldl (MinesweeperAI.extract_at iter) a l).
Proof.
  revert a. induction l as [| j l IH]; intros a Ha Hinv; simpl; [done |].
  apply IH; [by apply sound_extract_at | by apply pending_mine_step].
Qed.
End Pending.

Lemma extract_pass_split (iter : gset cell → list cell)
    (ai : MinesweeperAI.t) (i : nat) :
  (i < length (MinesweeperAI.knowledge ai))%nat →
  MinesweeperAI.extract_pass iter ai
  = foldl (MinesweeperAI.extract_at iter)
      (MinesweeperAI.extract_at iter
         (foldl (MinesweeperAI.extract_at iter) ai (seq 0 i)) i)
      (seq (S i) (length (MinesweeperAI.knowledge ai) - S i)).
Proof.
  intros Hi. unfold MinesweeperAI.extract_pass.
  replace (length (MinesweeperAI.knowledge ai))
    with (i + S (length (MinesweeperAI.knowledge ai) - S i))%nat at 1 by lia.
  rewrite seq_app, foldl_app. simpl. done.
Qed.

(** X3: while the engine's beliefs are true of some board, one
    extraction pass settles every sentence that is trivial when the pass
    starts: if its count is 0, all its cells are in [safes] when the pass
    ends, and if its count is the number of its cells, all its cells are in
    [mines], wherever the sentence stands in the list. *)
Theorem extract_pass_settles_trivial (iter : gset cell → list cell)
    (board : cell → bool) (ai : MinesweeperAI.t) (i : nat) (s : Sentence.t) :
  iter_ok iter → sound board ai →
  MinesweeperAI.knowledge ai !! i = Some s →
  (Sentence.count s = 0 →
   Sentence.cells s
   ⊆ MinesweeperAI.safes (MinesweeperAI.extract_pass iter ai))
  ∧ (Sentence.count s = Z.of_nat (size (Sentence.cells s)) →
     Sentence.cells s
     ⊆ MinesweeperAI.mines (MinesweeperAI.extract_pass iter ai)).
Proof.
  intros Hiter Hai Hs.
  pose proof (lookup_lt_Some _ _ _ Hs) as Hi.
  rewrite (extract_pass_split iter ai i Hi).
  pose proof (sound_extract_fold iter board (seq 0 i) ai Hiter Hai) as Hpre.
  split; intros Hc.
  - etrans; [| by apply safes_extract_fold_mono].
    apply (pending_safe_done iter s i Hiter).
    apply (pending_safe_fold iter board s i Hiter); [done |].
    exists s. split; [done |]. split; [done | set_solver].
  - etrans; [| by apply mines_extract_fold_mono].
    apply (pending_mine_done iter board s i Hiter).
    apply (pending_mine_fold iter board s i Hiter); [done |].
    exists s. split; [done |]. split; [done | set_solver].
Qed.

Lemma ai_trivial_sound : sound board_corners ai_trivial.
Proof.
  split; unfold ai_trivial; simpl.
  - intros p Hp. by apply elem_of_empty in Hp.
  - intros p Hp. by apply elem_of_empty in Hp.
  - repeat (apply Forall_cons_2; [by vm_compute |]). apply Forall_nil_2.
Qed.

Lemma extract_pass_settles_trivial_witness :
  iter_ok iter_elements ∧ sound board_corners ai_trivial
  ∧ MinesweeperAI.knowledge ai_trivial !! 1%nat
    = Some (Sentence.Sentence {[(1, 0); (1, 2)]} 2)
  ∧ {[(1, 0); (1, 2)]}
    ⊆ MinesweeperAI.mines (MinesweeperAI.extract_pass iter_elements ai_trivial).
Proof.
  split; [apply iter_elements_ok |]. split; [apply ai_trivial_sound |].
  split; [reflexivity |].
  apply (extract_pass_settles_trivial iter_elements board_corners ai_trivial
           1 (Sentence.Sentence {[(1, 0); (1, 2)]} 2)
           iter_elements_ok ai_trivial_sound eq_refl).
  reflexivity.
Defined.

(** ** What a call of [add_knowledge] leaves in place *)

Lemma grows_refl (a : MinesweeperAI.t) : grows a a.
Proof. by repeat split. Qed.

Lemma grows_trans (a b c : MinesweeperAI.t) :
  grows a b → grows b c → grows a c.
Proof.
  intros (Hh1 & Hw1 & Hv1 & Hm1 & Hs1) (Hh2 & Hw2 & Hv2 & Hm2 & Hs2).
  repeat split; [congruence | congruence | congruence | set_solver | set_solver].
Qed.

Lemma grows_mark_mine (c : cell) (a : MinesweeperAI.t) :
  grows a (MinesweeperAI.mark_mine c a).
Proof. repeat split; simpl; set_solver. Qed.

Lemma grows_mark_safe (c : cell) (a : MinesweeperAI.t) :
  grows a (MinesweeperAI.mark_safe c a).
Proof. repeat split; simpl; set_solver. Qed.

Lemma grows_set_knowledge (k : list Sentence.t) (a : MinesweeperAI.t) :
  grows a (MinesweeperAI.set_knowledge k a).
Proof. by repeat split. Qed.

Lemma grows_mark_each (iter : gset cell → list cell)
    (mark : cell → MinesweeperAI.t → MinesweeperAI.t)
    (r : option (gset cell)) (a : MinesweeperAI.t) :
  (∀ c b, grows b (mark c b)) →
  grows a (MinesweeperAI.mark_each iter mark r a).
Proof.
  intros Hmark. destruct r as [X |]; simpl; [| apply grows_refl].
  revert a. induction (iter X) as [| c l IH]; intros a; simpl.
  - apply grows_refl.
  - eapply grows_trans; [apply Hmark | apply IH].
Qed.

Lemma grows_extract_at (iter : gset cell → list cell)
    (a : MinesweeperAI.t) (i : nat) :
  grows a (MinesweeperAI.extract_at iter a i).
Proof.
  unfold MinesweeperAI.extract_at.
  destruct (MinesweeperAI.knowledge a !! i) as [s |]; [| apply grows_refl].
  cbv zeta.
  set (a1 := if truthy (Sentence.known_mines s) then _ else a).
  assert (grows a a1) as Ha1.
  { subst a1. destruct (truthy (Sentence.known_mines s)).
    - apply grows_mark_each, grows_mark_mine.
    - apply grows_refl. }
  destruct (MinesweeperAI.knowledge a1 !! i) as [s' |]; [| done].
  destruct (truthy (Sentence.known_safes s')); [| done].
  eapply grows_trans; [exact Ha1 |].
  apply grows_mark_each, grows_mark_safe.
Qed.

Lemma grows_extract_pass (iter : gset cell → list cell)
    (a : MinesweeperAI.t) :
  grows a (MinesweeperAI.extract_pass iter a).
Proof.
  unfold MinesweeperAI.extract_pass.
  generalize (seq 0 (length (MinesweeperAI.knowledge a))). intros l.
  revert a. induction l as [| i l IH]; intros a; simpl.
  - apply grows_refl.
  - eapply grows_trans; [apply grows_extract_at | apply IH].
Qed.

Lemma add_knowledge_effect (iter : gset cell → list cell)
    (dedup : list Sentence.t → list Sentence.t)
    (c : cell) (n : Z) (ai : MinesweeperAI.t) :
  MinesweeperAI.height (MinesweeperAI.add_knowledge iter dedup c n ai)
    = MinesweeperAI.height ai
  ∧ MinesweeperAI.width (MinesweeperAI.add_knowledge iter dedup c n ai)
    = MinesweeperAI.width ai
  ∧ MinesweeperAI.moves_made (MinesweeperAI.add_knowledge iter dedup c n ai)
    = {[c]} ∪ MinesweeperAI.moves_made ai
  ∧ MinesweeperAI.mines ai
    ⊆ MinesweeperAI.mines (MinesweeperAI.add_knowledge iter dedup c n ai)
  ∧ MinesweeperAI.safes ai
    ⊆ MinesweeperAI.safes (MinesweeperAI.add_knowledge iter dedup c n ai)
  ∧ c ∈ MinesweeperAI.safes (MinesweeperAI.add_knowledge iter dedup c n ai).
Proof.
  unfold MinesweeperAI.add_knowledge, MinesweeperAI.infer. cbv zeta.
  set (ai1 := MinesweeperAI.MinesweeperAI _ _ _ _ _ _).
  set (ai2 := if bool_decide _ then ai1 else _).
  set (ai3 := MinesweeperAI.set_knowledge (_ ++ _) ai2).
  assert (MinesweeperAI.height ai2 = MinesweeperAI.height ai
          ∧ MinesweeperAI.width ai2 = MinesweeperAI.width ai
          ∧ MinesweeperAI.moves_made ai2 = {[c]} ∪ MinesweeperAI.moves_made ai
          ∧ MinesweeperAI.mines ai ⊆ MinesweeperAI.mines ai2
          ∧ MinesweeperAI.safes ai ⊆ MinesweeperAI.safes ai2
          ∧ c ∈ MinesweeperAI.safes ai2) as (Hh & Hw & Hv & Hm & Hs & Hc).
  { subst ai2. case_bool_decide as Hin; simpl in *.
    - repeat split; done.
    - repeat split; set_solver. }
  destruct (grows_extract_pass iter ai3) as (Hh' & Hw' & Hv' & Hm' & Hs').
  simpl in *. rewrite Hh', Hw', Hv'.
  repeat split; [done | done | done | set_solver | set_solver | set_solver].
Qed.

(** X4: a call [add_knowledge(cell, count)] keeps the board size, adds
    exactly [cell] to [moves_made], never removes a cell from [mines] or
    from [safes], and leaves [cell] in [safes]; this for every count and
    every engine state. *)
Theorem add_knowledge_only_grows (iter : gset cell → list cell)
    (dedup : list Sentence.t → list Sentence.t)
    (c : cell) (n : Z) (ai : MinesweeperAI.t) :
  MinesweeperAI.height (MinesweeperAI.add_knowledge iter dedup c n ai)
    = MinesweeperAI.height ai
  ∧ MinesweeperAI.width (MinesweeperAI.add_knowledge iter dedup c n ai)
    = MinesweeperAI.width ai
  ∧ MinesweeperAI.moves_made (MinesweeperAI.add_knowledge iter dedup c n ai)
    = {[c]} ∪ MinesweeperAI.moves_made ai
  ∧ MinesweeperAI.mines ai
    ⊆ MinesweeperAI.mines (MinesweeperAI.add_knowledge iter dedup c n ai)
  ∧ MinesweeperAI.safes ai
    ⊆ MinesweeperAI.safes (MinesweeperAI.add_knowledge iter dedup c n ai)
  ∧ c ∈ MinesweeperAI.safes (MinesweeperAI.add_knowledge iter dedup c n ai).
Proof. apply add_knowledge_effect. Qed.

(** ** Played cells *)

Lemma observe_all_moves_made (iter : gset cell → list cell)
    (dedup : list Sentence.t → list Sentence.t)
    (obs : list (cell * Z)) (ai : MinesweeperAI.t) :
  MinesweeperAI.moves_made (observe_all iter dedup obs ai)
  = list_to_set obs.*1 ∪ MinesweeperAI.moves_made ai.
Proof.
  unfold observe_all. revert ai.
  induction obs as [| [c n] obs IH]; intros ai; simpl; [set_solver |].
  rewrite IH.
  destruct (add_knowledge_effect iter dedup c n ai) as (_ & _ & -> & _).
  set_solver.
Qed.

Lemma observe_all_played_safe (iter : gset cell → list cell)
    (dedup : list Sentence.t → list Sentence.t)
    (obs : list (cell * Z)) (ai : MinesweeperAI.t) :
  MinesweeperAI.moves_made ai ⊆ MinesweeperAI.safes ai →
  MinesweeperAI.moves_made (observe_all iter dedup obs ai)
  ⊆ MinesweeperAI.safes (observe_all iter dedup obs ai).
Proof.
  unfold observe_all. revert ai.
  induction obs as [| [c n] obs IH]; intros ai Hai; simpl; [done |].
  apply IH.
  destruct (add_knowledge_effect iter dedup c n ai)
    as (_ & _ & -> & _ & Hs & Hc).
  set_solver.
Qed.

(** X5: after any sequence of [add_knowledge] calls on a fresh engine,
    every played cell is in [safes].  The test of [neighbors] on [safes]
    then decides nothing: the cells of the sentence it builds are the
    in-bounds neighbours that are neither known mines nor played. *)
Theorem played_cells_are_safe (iter : gset cell → list cell)
    (dedup : list Sentence.t → list Sentence.t)
    (h w : Z) (obs : list (cell * Z)) (c : cell) (n : Z) :
  MinesweeperAI.moves_made (observe_all iter dedup obs (MinesweeperAI.init h w))
  ⊆ MinesweeperAI.safes (observe_all iter dedup obs (MinesweeperAI.init h w))
  ∧ Sentence.cells
      (MinesweeperAI.neighbors
         (observe_all iter dedup obs (MinesweeperAI.init h w)) c n)
    = filter (λ p, p ∉ MinesweeperAI.moves_made
                         (observe_all iter dedup obs (MinesweeperAI.init h w)))
        (adjacent
           (MinesweeperAI.height
              (observe_all iter dedup obs (MinesweeperAI.init h w)))
           (MinesweeperAI.width
              (observe_all iter dedup obs (MinesweeperAI.init h w))) c
         ∖ MinesweeperAI.mines
             (observe_all iter dedup obs (MinesweeperAI.init h w))).
Proof.
  assert (MinesweeperAI.moves_made
            (observe_all iter dedup obs (MinesweeperAI.init h w))
          ⊆ MinesweeperAI.safes
              (observe_all iter dedup obs (MinesweeperAI.init h w))) as Hsub
    by (apply observe_all_played_safe; simpl; set_solver).
  split; [done |].
  rewrite neighbors_eq_spec. unfold neighbors_spec. cbv zeta.
  cbn [Sentence.cells]. apply set_eq. intros p.
  rewrite !elem_of_filter. split.
  - intros [Hp Hin]. split; [| done]. intros Hv. apply Hp. split; [| done].
    by apply Hsub.
  - intros [Hp Hin]. split; [| done]. intros [_ Hv]. done.
Qed.

(** X6: neither move suggestion ever returns a cell that was observed:
    after a sequence of [add_knowledge] calls, from any engine, the answers
    of [make_safe_move] and [make_random_move] differ from every cell of the
    sequence. *)
Theorem observed_cell_is_not_suggested (iter : gset cell → list cell)
    (dedup : list Sentence.t → list Sentence.t) (randbelow : nat → nat)
    (obs : list (cell * Z)) (ai : MinesweeperAI.t) (c : cell) (n : Z) :
  (c, n) ∈ obs →
  (MinesweeperAI.make_safe_move iter (observe_all iter dedup obs ai)).1
    ≠ Some c
  ∧ (MinesweeperAI.make_random_move randbelow
       (observe_all iter dedup obs ai)).1 ≠ Some c.
Proof.
  intros Hc.
  assert (c ∈ MinesweeperAI.moves_made (observe_all iter dedup obs ai))
    as Hplayed.
  { rewrite observe_all_moves_made. apply elem_of_union_l.
    apply elem_of_list_to_set, list_elem_of_fmap. by exists (c, n). }
  split.
  - unfold MinesweeperAI.make_safe_move. cbn [fst]. intros Hf.
    apply find_some in Hf as [_ Hb].
    apply negb_true_iff, bool_decide_eq_false in Hb. done.
  - unfold MinesweeperAI.make_random_move. cbv zeta. cbn [fst]. intros Hf.
    destruct (negb _); [| done].
    apply list_elem_of_lookup_2, elem_of_candidate_moves in Hf
      as (_ & Hv & _).
    done.
Qed.

Lemma observed_cell_is_not_suggested_witness :
  ((0, 1), 2) ∈ obs_corners
  ∧ (MinesweeperAI.make_safe_move iter_elements
       (observe_all iter_elements dedup_first obs_corners
          (MinesweeperAI.init 2 3))).1 ≠ Some (0, 1).
Proof.
  split; [by_evaluation |].
  apply (observed_cell_is_not_suggested iter_elements dedup_first
           randbelow_zero obs_corners (MinesweeperAI.init 2 3) (0, 1) 2).
  by_evaluation.
Defined.

(** ** Moves on oracle runs *)

(** X7: on any run of observations the oracle makes for a board, a cell
    returned by [make_safe_move] is not a mine of that board. *)
Theorem safe_move_is_no_mine (iter : gset cell → list cell)
    (dedup : list Sentence.t → list Sentence.t) (board : cell → bool)
    (h w : Z) (obs : list (cell * Z)) (c : cell) :
  iter_ok iter → dedup_ok dedup →
  Forall (oracle_obs board h w) obs →
  (MinesweeperAI.make_safe_move iter
     (observe_all iter dedup obs (MinesweeperAI.init h w))).1 = Some c →
  board c = false.
Proof.
  intros Hiter Hdedup Hobs Hf.
  pose proof (sound_observe_all iter dedup board obs (MinesweeperAI.init h w)
                Hiter Hdedup Hobs (sound_init board h w)) as [_ Hs _].
  apply Hs. unfold MinesweeperAI.make_safe_move in Hf. cbn [fst] in Hf.
  apply find_some in Hf as [Hin _].
  by apply list_elem_of_In, (iter_elem _ Hiter) in Hin.
Qed.

(** X8: one call of [add_knowledge] with what the oracle reports keeps
    the engine's beliefs true of the board: if every cell of [mines] is a
    mine, no cell of [safes] is, and every sentence counts the mines among
    its cells, then the same holds after the call. *)
Theorem add_knowledge_keeps_beliefs_true (iter : gset cell → list cell)
    (dedup : list Sentence.t → list Sentence.t) (board : cell → bool)
    (c : cell) (n : Z) (ai : MinesweeperAI.t) :
  iter_ok iter → dedup_ok dedup →
  board c = false →
  n = oracle_count board (MinesweeperAI.height ai) (MinesweeperAI.width ai) c →
  (∀ p, p ∈ MinesweeperAI.mines ai → board p = true) →
  (∀ p, p ∈ MinesweeperAI.safes ai → board p = false) →
  (∀ s, s ∈ MinesweeperAI.knowledge ai →
        Sentence.count s = mines_in board (Sentence.cells s)) →
  (∀ p, p ∈ MinesweeperAI.mines
              (MinesweeperAI.add_knowledge iter dedup c n ai) →
        board p = true)
  ∧ (∀ p, p ∈ MinesweeperAI.safes
                (MinesweeperAI.add_knowledge iter dedup c n ai) →
          board p = false)
  ∧ (∀ s, s ∈ MinesweeperAI.knowledge
                (MinesweeperAI.add_knowledge iter dedup c n ai) →
          Sentence.count s = mines_in board (Sentence.cells s)).
Proof.
  intros Hiter Hdedup Hc Hn Hm Hs Hk.
  assert (sound board ai) as Hai.
  { split; [done | done |]. apply Forall_forall. intros s Hin. by apply Hk. }
  pose proof (sound_add_knowledge iter dedup board Hiter Hdedup c n ai
                (conj Hc Hn) Hai) as [Hm' Hs' Hk'].
  split; [done |]. split; [done |].
  rewrite Forall_forall in Hk'. done.
Qed.

Lemma safe_move_is_no_mine_witness :
  iter_ok iter_elements ∧ dedup_ok dedup_first
  ∧ Forall (oracle_obs board_row 1 4) obs_row
  ∧ (MinesweeperAI.make_safe_move iter_elements
       (observe_all iter_elements dedup_first obs_row
          (MinesweeperAI.init 1 4))).1 = Some (0, 1)
  ∧ board_row (0, 1) = false.
Proof.
  split; [apply iter_elements_ok |]. split; [apply dedup_first_ok |].
  split; [apply obs_row_oracle |].
  split; [vm_compute; reflexivity |].
  apply (safe_move_is_no_mine iter_elements dedup_first board_row 1 4 obs_row
           (0, 1) iter_elements_ok dedup_first_ok obs_row_oracle).
  vm_compute. reflexivity.
Defined.

Lemma add_knowledge_keeps_beliefs_true_witness :
  board_corners (0, 1) = false
  ∧ 2 = oracle_count board_corners 2 3 (0, 1)
  ∧ sound board_corners ai_trivial
  ∧ ∀ p, p ∈ MinesweeperAI.mines
               (MinesweeperAI.add_knowledge iter_elements dedup_first
                  (0, 1) 2 ai_trivial) →
         board_corners p = true.
Proof.
  split; [reflexivity |]. split; [vm_compute; reflexivity |].
  split; [apply ai_trivial_sound |].
  pose proof ai_trivial_sound as [Hm Hs Hk]. rewrite Forall_forall in Hk.
  pose proof (add_knowledge_keeps_beliefs_true iter_elements dedup_first
                board_corners (0, 1) 2 ai_trivial
                iter_elements_ok dedup_first_ok eq_refl
                ltac:(vm_compute; reflexivity) Hm Hs Hk) as (Hm' & _ & _).
  exact Hm'.
Defined.

(** ** The derivation pass *)

Lemma derive_inner_snoc (i j : Sentence.t) (sn k : list Sentence.t) :
  MinesweeperAI.derive_inner i (sn ++ [j]) k
  = let k' := MinesweeperAI.derive_inner i sn k in
    if bool_decide (Sentence.cells j = Sentence.cells i) then k'
    else if bool_decide (Sentence.cells j ⊆ Sentence.cells i)
         then k' ++ [Sentence.Sentence
                       (Sentence.cells i ∖ Sentence.cells j)
                       (Sentence.count i - Sentence.count j)]
         else k'.
Proof. unfold MinesweeperAI.derive_inner. by rewrite foldl_app. Qed.

(** The inner loop appends to the list and every sentence it appends is
    the difference of [i] and a strictly smaller sentence of the copy. *)
Lemma derive_inner_appends (i : Sentence.t) (sn k : list Sentence.t) :
  ∃ l, MinesweeperAI.derive_inner i sn k = k ++ l
       ∧ ∀ s, s ∈ l →
              ∃ j, j ∈ sn
                   ∧ Sentence.cells j ⊆ Sentence.cells i
                   ∧ Sentence.cells j ≠ Sentence.cells i
                   ∧ s = Sentence.Sentence
                           (Sentence.cells i ∖ Sentence.cells j)
                           (Sentence.count i - Sentence.count j).
Proof.
  induction sn as [| j sn IH] using rev_ind.
  - exists []. split; [by rewrite app_nil_r |]. intros s Hs.
    by apply elem_of_nil in Hs.
  - destruct IH as (l & Hl & Hfrom).
    rewrite derive_inner_snoc. cbv zeta. rewrite Hl.
    assert (∀ s, s ∈ l →
                 ∃ j0, j0 ∈ sn ++ [j]
                       ∧ Sentence.cells j0 ⊆ Sentence.cells i
                       ∧ Sentence.cells j0 ≠ Sentence.cells i
                       ∧ s = Sentence.Sentence
                               (Sentence.cells i ∖ Sentence.cells j0)
                               (Sentence.count i - Sentence.count j0)) as Hfrom'.
    { intros s Hs. destruct (Hfrom s Hs) as (j0 & Hj0 & Hrest).
      exists j0. split; [| done]. apply elem_of_app. by left. }
    case_bool_decide as Heq; [by exists l |].
    case_bool_decide as Hsub; [| by exists l].
    eexists (l ++ [_]). split; [by rewrite app_assoc |].
    intros s [Hs | Hs]%elem_of_app; [by apply Hfrom' |].
    apply list_elem_of_singleton in Hs as ->.
    exists j. split; [| done]. apply elem_of_app. right.
    apply list_elem_of_here.
Qed.

Lemma derive_inner_finds (i j : Sentence.t) (sn k : list Sentence.t) :
  j ∈ sn →
  Sentence.cells j ⊆ Sentence.cells i →
  Sentence.cells j ≠ Sentence.cells i →
  Sentence.Sentence (Sentence.cells i ∖ Sentence.cells j)
                    (Sentence.count i - Sentence.count j)
  ∈ MinesweeperAI.derive_inner i sn k.
Proof.
  intros Hj Hsub Hne.
  induction sn as [| j' sn IH] using rev_ind;
    [by apply elem_of_nil in Hj |].
  rewrite derive_inner_snoc. cbv zeta.
  apply elem_of_app in Hj as [Hj | Hj].
  - specialize (IH Hj).
    repeat case_bool_decide; try done. apply elem_of_app. by left.
  - apply list_elem_of_singleton in Hj as <-.
    rewrite (bool_decide_eq_false_2 _ Hne), (bool_decide_eq_true_2 _ Hsub).
    apply elem_of_app. right. apply list_elem_of_here.
Qed.

Lemma derive_outer_appends (k0 l k : list Sentence.t) :
  (∀ s, s ∈ l → s ∈ k0) →
  ∃ l', foldl (λ k i, MinesweeperAI.derive_inner i k k) k l = k ++ l'
        ∧ ∀ s, s ∈ l' →
               ∃ i j, i ∈ k0 ∧ j ∈ k ++ l'
                      ∧ Sentence.cells j ⊆ Sentence.cells i
                      ∧ Sentence.cells j ≠ Sentence.cells i
                      ∧ s = Sentence.Sentence
                              (Sentence.cells i ∖ Sentence.cells j)
                              (Sentence.count i - Sentence.count j).
Proof.
  revert k. induction l as [| i l IH]; intros k Hl; simpl.
  - exists []. split; [by rewrite app_nil_r |]. intros s Hs.
    by apply elem_of_nil in Hs.
  - destruct (derive_inner_appends i k k) as (l1 & Hl1 & Hfrom1).
    rewrite Hl1.
    destruct (IH (k ++ l1)) as (l2 & Hl2 & Hfrom2).
    { intros s Hs. apply Hl. by apply list_elem_of_further. }
    exists (l1 ++ l2). split; [by rewrite Hl2, app_assoc |].
    intros s [Hs | Hs]%elem_of_app.
    + destruct (Hfrom1 s Hs) as (j & Hj & Hrest).
      exists i, j. split; [apply Hl, list_elem_of_here |].
      split; [| done]. apply elem_of_app. by left.
    + destruct (Hfrom2 s Hs) as (i' & j & Hi' & Hj & Hrest).
      exists i', j. split; [done |]. split; [| done].
      by rewrite app_assoc.
Qed.

Lemma derive_outer_finds (l k : list Sentence.t) (i j : Sentence.t) :
  i ∈ l → j ∈ k →
  Sentence.cells j ⊆ Sentence.cells i →
  Sentence.cells j ≠ Sentence.cells i →
  Sentence.Sentence (Sentence.cells i ∖ Sentence.cells j)
                    (Sentence.count i - Sentence.count j)
  ∈ foldl (λ k i, MinesweeperAI.derive_inner i k k) k l.
Proof.
  intros Hi Hj Hsub Hne. revert k Hj.
  induction l as [| i' l IH]; intros k Hj; simpl;
    [by apply elem_of_nil in Hi |].
  destruct (derive_inner_appends i' k k) as (l1 & Hl1 & _).
  apply elem_of_cons in Hi as [-> | Hi].
  - destruct (derive_outer_appends l l (MinesweeperAI.derive_inner i' k k))
      as (l2 & -> & _); [done |].
    apply elem_of_app. left. by apply derive_inner_finds.
  - apply IH; [done |]. rewrite Hl1. apply elem_of_app. by left.
Qed.

(** X9: the derivation pass finds every subset pair it is given: for
    two sentences [i] and [j] of the list with the cells of [j] strictly
    inside the cells of [i], the sentence [(i.cells - j.cells,
    i.count - j.count)] is in the list when the pass ends. *)
Theorem derive_pass_finds_subset_pairs (k0 : list Sentence.t)
    (i j : Sentence.t) :
  i ∈ k0 → j ∈ k0 →
  Sentence.cells j ⊆ Sentence.cells i →
  Sentence.cells j ≠ Sentence.cells i →
  Sentence.Sentence (Sentence.cells i ∖ Sentence.cells j)
                    (Sentence.count i - Sentence.count j)
  ∈ MinesweeperAI.derive_pass k0.
Proof. unfold MinesweeperAI.derive_pass. apply derive_outer_finds. Qed.

Lemma derive_pass_finds_subset_pairs_witness :
  Sentence.Sentence {[(1, 0); (1, 1)]} 1
    ∈ [Sentence.Sentence {[(1, 0); (1, 1)]} 1;
       Sentence.Sentence {[(1, 0); (1, 1); (1, 2)]} 2]
  ∧ Sentence.Sentence
      ({[(1, 0); (1, 1); (1, 2)]} ∖ {[(1, 0); (1, 1)]}) (2 - 1)
    ∈ MinesweeperAI.derive_pass
        [Sentence.Sentence {[(1, 0); (1, 1)]} 1;
         Sentence.Sentence {[(1, 0); (1, 1); (1, 2)]} 2].
Proof.
  split; [by_evaluation |].
  exact (derive_pass_finds_subset_pairs
           [Sentence.Sentence {[(1, 0); (1, 1)]} 1;
            Sentence.Sentence {[(1, 0); (1, 1); (1, 2)]} 2]
           (Sentence.Sentence {[(1, 0); (1, 1); (1, 2)]} 2)
           (Sentence.Sentence {[(1, 0); (1, 1)]} 1)
           ltac:(by_evaluation) ltac:(by_evaluation)
           ltac:(by_evaluation) ltac:(by_evaluation)).
Defined.

(** X10: the derivation pass only appends.  The list it is given is a
    prefix of its result, and every sentence it adds is the difference of
    a sentence [i] of the given list and a sentence [j] of the result whose
    cells are strictly inside those of [i]; so no added sentence has an
    empty cell-set. *)
Theorem derive_pass_only_appends (k0 : list Sentence.t) :
  ∃ l, MinesweeperAI.derive_pass k0 = k0 ++ l
       ∧ ∀ s, s ∈ l →
              Sentence.cells s ≠ ∅
              ∧ ∃ i j, i ∈ k0 ∧ j ∈ MinesweeperAI.derive_pass k0
                       ∧ Sentence.cells j ⊆ Sentence.cells i
                       ∧ Sentence.cells j ≠ Sentence.cells i
                       ∧ s = Sentence.Sentence
                               (Sentence.cells i ∖ Sentence.cells j)
                               (Sentence.count i - Sentence.count j).
Proof.
  unfold MinesweeperAI.derive_pass.
  destruct (derive_outer_appends k0 k0 k0) as (l & Hl & Hfrom); [done |].
  exists l. split; [done |]. intros s Hs.
  destruct (Hfrom s Hs) as (i & j & Hi & Hj & Hsub & Hne & ->).
  split.
  - cbn [Sentence.cells]. intros He. apply Hne.
    apply set_eq. intros p. split; [by apply Hsub |]. intros Hp.
    destruct (decide (p ∈ Sentence.cells j)) as [| Hnj]; [done |].
    assert (p ∈ Sentence.cells i ∖ Sentence.cells j) as Hd by set_solver.
    rewrite He in Hd. by apply elem_of_empty in Hd.
  - exists i, j. rewrite Hl. done.
Qed.

(** ** Bounds on the neighbour constraint *)

Lemma filter_within (P : cell → Prop) `{!∀ p, Decision (P p)}
    (X : gset cell) :
  filter P X ⊆ X.
Proof. intros p Hp. by apply elem_of_filter in Hp as [_ ?]. Qed.

Lemma adjacent_size (h w : Z) (c : cell) : (size (adjacent h w c) ≤ 8)%nat.
Proof.
  unfold adjacent.
  etrans; [apply subseteq_size, filter_within |].
  match goal with
  | |- (size (list_to_set ?l) ≤ _)%nat =>
      assert (NoDup l) as Hnd
  end.
  { destruct c as [ci cj]. cbn [fst snd]. apply NoDup_ListNoDup.
    repeat (constructor; [simpl; intros H;
      repeat (destruct H as [H | H]; [injection H; lia |]); done |]).
    constructor. }
  rewrite (size_list_to_set (C := gset cell)) by done. done.
Qed.

(** X11: the sentence [neighbors] builds has at most eight cells, all
    in-bounds neighbours of the cell and none a known mine or the cell
    itself; its count is the given count minus the number of neighbours in
    [mines], so between [count - 8] and [count], and the cells kept and
    the mines counted off are together at most eight. *)
Theorem neighbors_bounds (ai : MinesweeperAI.t) (c : cell) (n : Z) :
  Sentence.cells (MinesweeperAI.neighbors ai c n)
    ⊆ adjacent (MinesweeperAI.height ai) (MinesweeperAI.width ai) c
      ∖ MinesweeperAI.mines ai
  ∧ (c ∉ Sentence.cells (MinesweeperAI.neighbors ai c n))
  ∧ n - 8 <= Sentence.count (MinesweeperAI.neighbors ai c n) <= n
  ∧ Z.of_nat (size (Sentence.cells (MinesweeperAI.neighbors ai c n)))
    + (n - Sentence.count (MinesweeperAI.neighbors ai c n)) <= 8.
Proof.
  rewrite neighbors_eq_spec. unfold neighbors_spec. cbv zeta.
  cbn [Sentence.cells Sentence.count].
  set (adj := adjacent (MinesweeperAI.height ai) (MinesweeperAI.width ai) c).
  pose proof (adjacent_size (MinesweeperAI.height ai)
                (MinesweeperAI.width ai) c) as H8. fold adj in H8.
  set (kept := filter _ (adj ∖ MinesweeperAI.mines ai)).
  assert (kept ⊆ adj ∖ MinesweeperAI.mines ai) as Hkept
    by apply filter_within.
  assert (size kept + size (adj ∩ MinesweeperAI.mines ai) ≤ size adj)%nat
    as Hsum.
  { rewrite <- (size_union (C := gset cell) kept
                  (adj ∩ MinesweeperAI.mines ai)) by set_solver.
    apply subseteq_size. set_solver. }
  split; [done |]. split.
  - intros Hc. apply Hkept in Hc. apply elem_of_difference in Hc as [Hc _].
    apply elem_of_adjacent in Hc as [[Hne _] _]. done.
  - lia.
Qed.

(** ** The first observation *)

Lemma adjacent_not_self (h w : Z) (c : cell) : c ∉ adjacent h w c.
Proof. intros Hc. apply elem_of_adjacent in Hc as [[Hne _] _]. done. Qed.

Lemma derive_pass_one (s : Sentence.t) : MinesweeperAI.derive_pass [s] = [s].
Proof.
  unfold MinesweeperAI.derive_pass, MinesweeperAI.derive_inner. simpl.
  by rewrite bool_decide_eq_true_2.
Qed.

Lemma first_sentence (h w : Z) (c : cell) (n : Z) :
  MinesweeperAI.neighbors
    (MinesweeperAI.MinesweeperAI h w ({[c]} ∪ ∅) ∅ ({[c]} ∪ ∅) []) c n
  = Sentence.Sentence (adjacent h w c) n.
Proof.
  rewrite neighbors_eq_spec. unfold neighbors_spec. cbv zeta.
  cbn [MinesweeperAI.height MinesweeperAI.width MinesweeperAI.mines
       MinesweeperAI.safes MinesweeperAI.moves_made].
  pose proof (adjacent_not_self h w c) as Hself.
  f_equal.
  - apply set_eq. intros p. rewrite elem_of_filter. split; [set_solver |].
    intros Hp. split; [| set_solver].
    intros [Hs _]. assert (p = c) as -> by set_solver. done.
  - replace (adjacent h w c ∩ ∅) with (∅ : gset cell) by set_solver.
    rewrite size_empty. lia.
Qed.

Lemma first_infer (iter : gset cell → list cell) (h w : Z) (c : cell) (n : Z) :
  MinesweeperAI.infer iter c n (MinesweeperAI.init h w)
  = let ai3 := MinesweeperAI.MinesweeperAI h w ({[c]} ∪ ∅) ∅ ({[c]} ∪ ∅)
                 [Sentence.Sentence (adjacent h w c) n] in
    let ai4 := MinesweeperAI.extract_at iter ai3 0 in
    MinesweeperAI.set_knowledge
      (MinesweeperAI.derive_pass (MinesweeperAI.knowledge ai4)) ai4.
Proof.
  unfold MinesweeperAI.infer, MinesweeperAI.init. cbv zeta.
  cbn [MinesweeperAI.height MinesweeperAI.width MinesweeperAI.mines
       MinesweeperAI.safes MinesweeperAI.moves_made MinesweeperAI.knowledge].
  rewrite bool_decide_eq_false_2 by set_solver.
  unfold MinesweeperAI.mark_safe.
  cbn [MinesweeperAI.height MinesweeperAI.width MinesweeperAI.mines
       MinesweeperAI.safes MinesweeperAI.moves_made MinesweeperAI.knowledge
       fmap list_fmap app].
  rewrite first_sentence. reflexivity.
Qed.

Lemma first_observation_eq (iter : gset cell → list cell)
    (dedup : list Sentence.t → list Sentence.t) (h w : Z) (c : cell) (n : Z) :
  iter_ok iter → dedup_ok dedup →
  MinesweeperAI.add_knowledge iter dedup c n (MinesweeperAI.init h w)
  = if bool_decide (n = 0)
    then MinesweeperAI.MinesweeperAI h w {[c]} ∅ ({[c]} ∪ adjacent h w c)
           [Sentence.Sentence ∅ 0]
    else if bool_decide (n = Z.of_nat (size (adjacent h w c)))
         then MinesweeperAI.MinesweeperAI h w {[c]} (adjacent h w c) {[c]}
                [Sentence.Sentence ∅ 0]
         else MinesweeperAI.MinesweeperAI h w {[c]} ∅ {[c]}
                [Sentence.Sentence (adjacent h w c) n].
Proof.
  intros Hiter Hdedup. unfold MinesweeperAI.add_knowledge. cbv zeta.
  rewrite first_infer. cbv zeta.
  rewrite (extract_at_eq iter _ 0 Hiter).
  cbn [MinesweeperAI.knowledge lookup list_lookup Sentence.cells Sentence.count].
  destruct (decide (n = 0)) as [-> | Hn0].
  - rewrite bool_decide_eq_false_2 by lia.
    rewrite !bool_decide_eq_true_2 by done.
    unfold mark_safes, MinesweeperAI.set_knowledge.
    cbn [MinesweeperAI.height MinesweeperAI.width MinesweeperAI.mines
         MinesweeperAI.safes MinesweeperAI.moves_made MinesweeperAI.knowledge
         fmap list_fmap Sentence.cells Sentence.count].
    replace (adjacent h w c ∖ adjacent h w c) with (∅ : gset cell)
      by set_solver.
    rewrite derive_pass_one, (dedup_one dedup Hdedup).
    f_equal; set_solver.
  - rewrite (bool_decide_eq_false_2 (n = 0)) by done.
    destruct (decide (n = Z.of_nat (size (adjacent h w c)))) as [Hall | Hall].
    + rewrite bool_decide_eq_true_2 by (split; [lia | done]).
      rewrite (bool_decide_eq_true_2 _ Hall).
      unfold mark_mines, MinesweeperAI.set_knowledge.
      cbn [MinesweeperAI.height MinesweeperAI.width MinesweeperAI.mines
           MinesweeperAI.safes MinesweeperAI.moves_made MinesweeperAI.knowledge
           fmap list_fmap Sentence.cells Sentence.count].
      replace (adjacent h w c ∖ adjacent h w c) with (∅ : gset cell)
        by set_solver.
      replace (adjacent h w c ∩ adjacent h w c) with (adjacent h w c)
        by set_solver.
      replace (n - Z.of_nat (size (adjacent h w c))) with 0 by lia.
      rewrite derive_pass_one, (dedup_one dedup Hdedup).
      f_equal; set_solver.
    + rewrite bool_decide_eq_false_2 by lia.
      rewrite (bool_decide_eq_false_2 _ Hall).
      unfold MinesweeperAI.set_knowledge.
      cbn [MinesweeperAI.height MinesweeperAI.width MinesweeperAI.mines
           MinesweeperAI.safes MinesweeperAI.moves_made MinesweeperAI.knowledge].
      rewrite derive_pass_one, (dedup_one dedup Hdedup).
      f_equal; set_solver.
Qed.

(** X12: the first observation on a fresh engine, whatever the board
    size, the cell and the runtime's orders.  With count 0 every in-bounds
    neighbour of the cell becomes safe; with a count equal to the number of
    in-bounds neighbours (and not 0) every one of them becomes a mine; in
    both cases the only sentence left is the empty one.  With any other
    count nothing is concluded and the sentence over all in-bounds
    neighbours is kept as it is. *)
Theorem first_observation (iter : gset cell → list cell)
    (dedup : list Sentence.t → list Sentence.t) (h w : Z) (c : cell) (n : Z) :
  iter_ok iter → dedup_ok dedup →
  MinesweeperAI.add_knowledge iter dedup c n (MinesweeperAI.init h w)
  = if bool_decide (n = 0)
    then MinesweeperAI.MinesweeperAI h w {[c]} ∅ ({[c]} ∪ adjacent h w c)
           [Sentence.Sentence ∅ 0]
    else if bool_decide (n = Z.of_nat (size (adjacent h w c)))
         then MinesweeperAI.MinesweeperAI h w {[c]} (adjacent h w c) {[c]}
                [Sentence.Sentence ∅ 0]
         else MinesweeperAI.MinesweeperAI h w {[c]} ∅ {[c]}
                [Sentence.Sentence (adjacent h w c) n].
Proof. apply first_observation_eq. Qed.

Lemma first_observation_witness :
  iter_ok iter_elements ∧ dedup_ok dedup_first
  ∧ MinesweeperAI.safes
      (MinesweeperAI.add_knowledge iter_elements dedup_first (0, 0) 0
         (MinesweeperAI.init 4 4))
    = {[(0, 0)]} ∪ adjacent 4 4 (0, 0).
Proof.
  split; [apply iter_elements_ok |]. split; [apply dedup_first_ok |].
  rewrite (first_observation iter_elements dedup_first 4 4 (0, 0) 0
             iter_elements_ok dedup_first_ok).
  reflexivity.
Defined.

(** ** Independence of the runtime's set order *)

Lemma iter_reversed_ok : iter_ok iter_reversed.
Proof.
  split; unfold iter_reversed.
  - intros X c. rewrite elem_of_reverse. apply elem_of_elements.
  - intros X. rewrite reverse_Permutation. apply NoDup_elements.
Qed.

(** X13: the result of [add_knowledge] does not depend on the order in
    which the runtime walks through a set of cells: two runtimes that
    agree on [list(set(...))] give the same engine. *)
Theorem add_knowledge_ignores_set_order (iter1 iter2 : gset cell → list cell)
    (dedup : list Sentence.t → list Sentence.t)
    (c : cell) (n : Z) (ai : MinesweeperAI.t) :
  iter_ok iter1 → iter_ok iter2 →
  MinesweeperAI.add_knowledge iter1 dedup c n ai
  = MinesweeperAI.add_knowledge iter2 dedup c n ai.
Proof.
  intros H1 H2. unfold MinesweeperAI.add_knowledge. cbv zeta.
  by rewrite (infer_any_order iter1 H1), (infer_any_order iter2 H2).
Qed.

Lemma add_knowledge_ignores_set_order_witness :
  iter_ok iter_elements ∧ iter_ok iter_reversed
  ∧ MinesweeperAI.add_knowledge iter_elements dedup_first (0, 0) 0
      (MinesweeperAI.init 4 4)
    = MinesweeperAI.add_knowledge iter_reversed dedup_first (0, 0) 0
        (MinesweeperAI.init 4 4).
Proof.
  split; [apply iter_elements_ok |]. split; [apply iter_reversed_ok |].
  apply (add_knowledge_ignores_set_order iter_elements iter_reversed
           dedup_first (0, 0) 0 (MinesweeperAI.init 4 4)
           iter_elements_ok iter_reversed_ok).
Defined.

(** ** Known mines stay out of the sentences *)

(** X14: after any sequence of [add_knowledge] calls on a fresh engine,
    with any counts, no cell of a retained sentence is in [mines]. *)
Theorem retained_sentence_has_no_known_mine (iter : gset cell → list cell)
    (dedup : list Sentence.t → list Sentence.t)
    (h w : Z) (obs : list (cell * Z)) (s : Sentence.t) (p : cell) :
  dedup_ok dedup →
  s ∈ MinesweeperAI.knowledge
        (observe_all iter dedup obs (MinesweeperAI.init h w)) →
  p ∈ Sentence.cells s →
  p ∉ MinesweeperAI.mines (observe_all iter dedup obs (MinesweeperAI.init h w)).
Proof.
  intros Hdedup Hs Hp Hm.
  pose proof (retained_cells_avoid_mines iter dedup h w obs Hdedup) as Hall.
  rewrite Forall_forall in Hall. by apply (Hall s Hs p).
Qed.

Lemma retained_sentence_has_no_known_mine_witness :
  dedup_ok dedup_first
  ∧ Sentence.Sentence {[(0, 1); (0, 3)]} 1
      ∈ MinesweeperAI.knowledge
          (observe_all iter_elements dedup_first obs_row
             (MinesweeperAI.init 1 4))
  ∧ (0, 3) ∉ MinesweeperAI.mines
               (observe_all iter_elements dedup_first obs_row
                  (MinesweeperAI.init 1 4)).
Proof.
  split; [apply dedup_first_ok |]. split; [by_evaluation |].
  apply (retained_sentence_has_no_known_mine iter_elements dedup_first 1 4
           obs_row (Sentence.Sentence {[(0, 1); (0, 3)]} 1) (0, 3)
           dedup_first_ok); by_evaluation.
Defined.

(** ** Marks of the engine *)

Lemma sentence_mark_mine_safe_comm (c1 c2 : cell) (s : Sentence.t) :
  c1 ≠ c2 →
  Sentence.mark_mine c1 (Sentence.mark_safe c2 s)
  = Sentence.mark_safe c2 (Sentence.mark_mine c1 s).
Proof.
  intros Hne. unfold Sentence.mark_mine, Sentence.mark_safe.
  destruct (decide (c1 ∈ Sentence.cells s)) as [H1 | H1];
    destruct (decide (c2 ∈ Sentence.cells s)) as [H2 | H2];
    rewrite ?(bool_decide_eq_true_2 _ H1), ?(bool_decide_eq_false_2 _ H1),
            ?(bool_decide_eq_true_2 _ H2), ?(bool_decide_eq_false_2 _ H2);
    simpl;
    rewrite ?(bool_decide_eq_true_2 _ H1), ?(bool_decide_eq_false_2 _ H1),
            ?(bool_decide_eq_true_2 _ H2), ?(bool_decide_eq_false_2 _ H2);
    try done.
  - rewrite !bool_decide_eq_true_2 by set_solver. f_equal; set_solver.
  - by rewrite bool_decide_eq_false_2 by set_solver.
  - by rewrite bool_decide_eq_false_2 by set_solver.
Qed.

Lemma sentence_mark_mine_after_safe (c : cell) (s : Sentence.t) :
  Sentence.mark_mine c (Sentence.mark_safe c s) = Sentence.mark_safe c s.
Proof.
  unfold Sentence.mark_mine.
  rewrite bool_decide_eq_false_2; [done |].
  rewrite sentence_mark_safe_cells. set_solver.
Qed.

Lemma sentence_mark_safe_after_mine (c : cell) (s : Sentence.t) :
  Sentence.mark_safe c (Sentence.mark_mine c s) = Sentence.mark_mine c s.
Proof.
  unfold Sentence.mark_safe at 1.
  rewrite bool_decide_eq_false_2; [done |].
  rewrite sentence_mark_mine_cells. set_solver.
Qed.

(** X15: the engine's marks of two cells can be swapped: two
    [mark_mine], two [mark_safe], and a [mark_mine] with a [mark_safe] of
    another cell give the same engine in either order.  On the same cell
    the first mark decides: a later mark of the other kind finds the cell
    gone and leaves every sentence as it is. *)
Theorem engine_marks_commute (c1 c2 : cell) (ai : MinesweeperAI.t) :
  MinesweeperAI.mark_mine c1 (MinesweeperAI.mark_mine c2 ai)
    = MinesweeperAI.mark_mine c2 (MinesweeperAI.mark_mine c1 ai)
  ∧ MinesweeperAI.mark_safe c1 (MinesweeperAI.mark_safe c2 ai)
    = MinesweeperAI.mark_safe c2 (MinesweeperAI.mark_safe c1 ai)
  ∧ (c1 ≠ c2 →
     MinesweeperAI.mark_mine c1 (MinesweeperAI.mark_safe c2 ai)
     = MinesweeperAI.mark_safe c2 (MinesweeperAI.mark_mine c1 ai))
  ∧ MinesweeperAI.knowledge
      (MinesweeperAI.mark_mine c1 (MinesweeperAI.mark_safe c1 ai))
    = MinesweeperAI.knowledge (MinesweeperAI.mark_safe c1 ai)
  ∧ MinesweeperAI.knowledge
      (MinesweeperAI.mark_safe c1 (MinesweeperAI.mark_mine c1 ai))
    = MinesweeperAI.knowledge (MinesweeperAI.mark_mine c1 ai).
Proof.
  split; [apply engine_mark_mine_comm |].
  split; [apply engine_mark_safe_comm |].
  split; [| split].
  - intros Hne. unfold MinesweeperAI.mark_mine, MinesweeperAI.mark_safe.
    simpl. f_equal.
    rewrite <- !list_fmap_compose. apply list_fmap_ext.
    intros _ s _. by apply sentence_mark_mine_safe_comm.
  - simpl. rewrite <- list_fmap_compose. apply list_fmap_ext.
    intros _ s _. apply sentence_mark_mine_after_safe.
  - simpl. rewrite <- list_fmap_compose. apply list_fmap_ext.
    intros _ s _. apply sentence_mark_safe_after_mine.
Qed.

(** ** Runs of observations *)

(** X16: after a sequence of [add_knowledge] calls, from any engine,
    [moves_made] is what it was plus exactly the observed cells, every
    observed cell is in [safes], and [mines] and [safes] contain what they
    contained before. *)
Theorem observations_accumulate (iter : gset cell → list cell)
    (dedup : list Sentence.t → list Sentence.t)
    (obs : list (cell * Z)) (ai : MinesweeperAI.t) :
  MinesweeperAI.moves_made (observe_all iter dedup obs ai)
    = list_to_set obs.*1 ∪ MinesweeperAI.moves_made ai
  ∧ list_to_set obs.*1 ⊆ MinesweeperAI.safes (observe_all iter dedup obs ai)
  ∧ MinesweeperAI.mines ai ⊆ MinesweeperAI.mines (observe_all iter dedup obs ai)
  ∧ MinesweeperAI.safes ai ⊆ MinesweeperAI.safes (observe_all iter dedup obs ai).
Proof.
  split; [apply observe_all_moves_made |].
  unfold observe_all. revert ai.
  induction obs as [| [c n] obs IH]; intros ai; simpl.
  - repeat split; set_solver.
  - destruct (IH (MinesweeperAI.add_knowledge iter dedup c n ai))
      as (Hobs & Hm & Hs).
    destruct (add_knowledge_effect iter dedup c n ai)
      as (_ & _ & _ & Hm1 & Hs1 & Hc1).
    repeat split; set_solver.
Qed.
